(** * Ultrasonic sensor replay: dead reckoning, projection, frame rendering

    A shallow embedding of [ultra.py].  The script loads a table of frames
    (24 range readings and a movement label per row), integrates the labels
    into a list of positions and a list of headings, and defines [update],
    the callback that draws one frame (radar view and top-down map).

    Numbers.  Headings are Python integers ([headings = [0]], changed only by
    [-= 10], [-= 25], [+= 10]); they are modelled as [Z].  ([np.array] later
    stores them in 64 bits; a table long enough to overflow that, some
    10^17 frames, cannot be loaded.)  Positions are
    binary64 values built from [cos], [sin], [+] and [*] on bounded
    arguments; they are modelled as real numbers with exact arithmetic, so
    rounding is not part of this model.  A statement below that needs a law
    of real arithmetic which rounding breaks (cos^2 + sin^2 = 1, exact
    periodicity, distributivity) says so.  Sensor readings come from the CSV
    parser and may be not-a-number or infinite; they are modelled by
    [Np.float64], the reals extended with the three special values, with
    the arithmetic and comparison rules of IEEE 754 on those values. *)

From Stdlib Require Import Reals Lra Lia ZArith List String Bool Arith Sorted.
From Stdlib Require Finite.
Import ListNotations.

Open Scope R_scope.

(** ** Exceptions *)

Inductive exn : Type := KeyError | IndexError | ValueError.

Inductive result (A : Type) : Type :=
| Ok (a : A)
| Raise (e : exn).

Arguments Ok {A} a.
Arguments Raise {A} e.

Definition bind {A B : Type} (c : result A) (k : A -> result B) : result B :=
  match c with
  | Ok a => k a
  | Raise e => Raise e
  end.

Notation "x <- c ;; k" := (bind c (fun x => k))
  (at level 61, c at next level, right associativity).

(** ** The numpy operations the script calls *)

Module Np.

(** A binary64 value: a (real) number, an infinity or not-a-number. *)
Inductive float64 : Type :=
| Fin (r : R)
| PInf
| NInf
| NaN.

Definition isnan (a : float64) : bool :=
  match a with NaN => true | _ => false end.

Definition isfinite (a : float64) : bool :=
  match a with Fin _ => true | _ => false end.

(** An infinity times the finite factor [y]: the sign follows the signs of
    the factors, and an infinity times zero is not-a-number. *)
Definition scale_inf (negative : bool) (y : R) : float64 :=
  if Rlt_dec 0 y then (if negative then NInf else PInf)
  else if Rlt_dec y 0 then (if negative then PInf else NInf)
  else NaN.

(** [a + b] *)
Definition add (a b : float64) : float64 :=
  match a, b with
  | NaN, _ | _, NaN => NaN
  | Fin x, Fin y => Fin (x + y)
  | PInf, NInf | NInf, PInf => NaN
  | PInf, _ | _, PInf => PInf
  | NInf, _ | _, NInf => NInf
  end.

(** [a * b] *)
Definition mul (a b : float64) : float64 :=
  match a, b with
  | NaN, _ | _, NaN => NaN
  | Fin x, Fin y => Fin (x * y)
  | PInf, PInf | NInf, NInf => PInf
  | PInf, NInf | NInf, PInf => NInf
  | PInf, Fin y | Fin y, PInf => scale_inf false y
  | NInf, Fin y | Fin y, NInf => scale_inf true y
  end.

(** [a < b]: false as soon as one side is not-a-number. *)
Definition ltb (a b : float64) : bool :=
  match a, b with
  | NaN, _ | _, NaN => false
  | Fin x, Fin y => if Rlt_dec x y then true else false
  | Fin _, PInf => true
  | Fin _, NInf => false
  | PInf, _ => false
  | NInf, NInf => false
  | NInf, _ => true
  end.

(** [np.fmax]: the larger operand; a not-a-number operand is ignored. *)
Definition fmax (a b : float64) : float64 :=
  match a, b with
  | NaN, _ => b
  | _, NaN => a
  | _, _ => if ltb a b then b else a
  end.

(** [np.nanmax] of a flattened array: [np.fmax.reduce]; an empty array
    raises [ValueError], an all-not-a-number array gives not-a-number (numpy
    only warns). *)
Definition nanmax (a : list float64) : result float64 :=
  match a with
  | [] => Raise ValueError
  | v :: rest => Ok (fold_left fmax rest v)
  end.

(** [np.deg2rad] *)
Definition deg2rad (d : R) : R := d * (PI / 180).

(** [a[i]] for an integer [i]: a negative index counts from the end, an
    index outside [-len, len) raises [IndexError]. *)
Definition getitem {A : Type} (a : list A) (i : Z) : result A :=
  let n := Z.of_nat (List.length a) in
  let j := if (i <? 0)%Z then (i + n)%Z else i in
  if (j <? 0)%Z then Raise IndexError
  else match nth_error a (Z.to_nat j) with
       | Some v => Ok v
       | None => Raise IndexError
       end.

(** [a[:stop]]: a negative [stop] counts from the end; the bounds are
    clamped to the array and the slice never raises. *)
Definition slice_to {A : Type} (a : list A) (stop : Z) : list A :=
  let n := Z.of_nat (List.length a) in
  let j := if (stop <? 0)%Z then (stop + n)%Z else stop in
  firstn (Z.to_nat (Z.max 0 j)) a.

(** [np.append(a, v)] *)
Definition append {A : Type} (a : list A) (v : A) : list A := a ++ [v].

End Np.

(** ** The pandas lookup the script calls *)

Module Pd.

(** [data.loc[frame, ...]] on a table with the default index [0, 1, ...,
    N-1]: a lookup by label.  A label that is not in the index raises
    [KeyError]; a negative label is not counted from the end. *)
Definition loc {A : Type} (data : list A) (frame : Z) : result A :=
  if (frame <? 0)%Z then Raise KeyError
  else match nth_error data (Z.to_nat frame) with
       | Some row => Ok row
       | None => Raise KeyError
       end.

End Pd.

(** ** Dataset and configuration *)

(** [sensor_cols]: the names of the 24 reading columns. *)
Definition sensor_cols : list string :=
  ["US1"; "US2"; "US3"; "US4"; "US5"; "US6"; "US7"; "US8";
   "US9"; "US10"; "US11"; "US12"; "US13"; "US14"; "US15"; "US16";
   "US17"; "US18"; "US19"; "US20"; "US21"; "US22"; "US23"; "US24"]%string.

(** One row of [data]: a value under each of the [sensor_cols] and the
    movement label of column ["Class"].  The label is compared with string
    literals only, so a cell that holds no string behaves like a string
    that matches none of them. *)
Record SensorFrame : Type := {
  US : list Np.float64;
  cls : string;
  US_len : List.length US = List.length sensor_cols
}.

(** [angles_deg]: the direction of each sensor, in degrees. *)
Definition angles_deg : list Z :=
  [180; -165; -150; -135; -120; -105; -90; -75;
   -60; -45; -30; -15; 0; 15; 30; 45;
   60; 75; 90; 105; 120; 135; 150; 165]%Z.

(** [angles_rad = np.deg2rad(angles_deg)] *)
Definition angles_rad : list R :=
  map (fun d => Np.deg2rad (IZR d)) angles_deg.

(** [movement_colors] and the lookup [movement_colors.get(key, default)]. *)
Definition movement_colors : list (string * string) :=
  [("Move-Forward", "green"); ("Slight-Right-Turn", "orange");
   ("Sharp-Right-Turn", "red"); ("Slight-Left-Turn", "blue")]%string.

Fixpoint dict_get (d : list (string * string)) (key default : string) : string :=
  match d with
  | [] => default
  | (k, v) :: rest => if String.eqb k key then v else dict_get rest key default
  end.

Definition OBSTACLE_THRESHOLD : R := 30.

(** ** Simulated robot position and heading *)

Record Pose : Type := mkPose {
  pose_x : R;
  pose_y : R;
  pose_heading : Z
}.

(** The pose the loop starts from: [positions = [(0, 0)]], [headings = [0]]. *)
Definition origin : Pose := mkPose 0 0 0.

(** The [if]/[elif] chain of the movement loop, from the pose read at the
    top of an iteration to the pose appended at its end. *)
Definition next_pose (p : Pose) (c : string) : Pose :=
  let x := pose_x p in
  let y := pose_y p in
  let heading := pose_heading p in
  if String.eqb c "Move-Forward" then
    mkPose (x + cos (Np.deg2rad (IZR heading)) * 2)
           (y + sin (Np.deg2rad (IZR heading)) * 2)
           heading
  else if String.eqb c "Slight-Right-Turn" then
    let heading := (heading - 10)%Z in
    mkPose (x + cos (Np.deg2rad (IZR heading)) * 1.5)
           (y + sin (Np.deg2rad (IZR heading)) * 1.5)
           heading
  else if String.eqb c "Sharp-Right-Turn" then
    mkPose x y (heading - 25)%Z
  else if String.eqb c "Slight-Left-Turn" then
    let heading := (heading + 10)%Z in
    mkPose (x + cos (Np.deg2rad (IZR heading)) * 1.5)
           (y + sin (Np.deg2rad (IZR heading)) * 1.5)
           heading
  else
    mkPose x y heading.

(** One iteration of [for cls in data["Class"]]: read [positions[-1]] and
    [headings[-1]], move, append to both lists. *)
Definition loop_body (st : list (R * R) * list Z) (c : string)
  : list (R * R) * list Z :=
  let (positions, headings) := st in
  let (x, y) := last positions (0, 0) in
  let heading := last headings 0%Z in
  let p := next_pose (mkPose x y heading) c in
  (positions ++ [(pose_x p, pose_y p)], headings ++ [pose_heading p]).

(** The whole loop, from [positions = [(0, 0)]] and [headings = [0]]. *)
Definition simulate (classes : list string) : list (R * R) * list Z :=
  fold_left loop_body classes ([(0, 0)], [0%Z]).

Definition positions (data : list SensorFrame) : list (R * R) :=
  fst (simulate (map cls data)).

Definition headings (data : list SensorFrame) : list Z :=
  snd (simulate (map cls data)).

(** The pose history as one list: entry [k] pairs [positions[k]] with
    [headings[k]]. *)
Definition to_pose (xy : R * R) (h : Z) : Pose := mkPose (fst xy) (snd xy) h.

Definition trajectory (classes : list string) : list Pose :=
  let (ps, hs) := simulate classes in
  map (fun ph => to_pose (fst ph) (snd ph)) (combine ps hs).

(** ** The frame update function *)

(** What one call of [update] hands to the two axes. *)
Record RenderState : Type := {
  radar_angles : list R;
  radar_readings : list Np.float64;
  move_class : string;
  base_color : string;
  radar_rmax : Np.float64;
  close_obstacles : list (nat * (R * Np.float64));
  path : list (R * R);
  robot : R * R;
  heading_angle : Z;
  arrow : R * R;
  circle : (R * R) * R;
  obstacle_x : list Np.float64;
  obstacle_y : list Np.float64;
  title : Z * (nat * string)
}.

(** [for i in idx: if readings[i] < threshold: scatter(angles[i], readings[i])]:
    the scatter calls made, each with the index that caused it.  The script
    runs it with [idx = range(len(sensor_cols))] and the threshold
    [OBSTACLE_THRESHOLD]. *)
Fixpoint highlight (threshold : Np.float64) (angles : list R)
  (readings : list Np.float64) (idx : list nat)
  : result (list (nat * (R * Np.float64))) :=
  match idx with
  | [] => Ok []
  | i :: rest =>
      r <- Np.getitem readings (Z.of_nat i) ;;
      if Np.ltb r threshold then
        a <- Np.getitem angles (Z.of_nat i) ;;
        more <- highlight threshold angles readings rest ;;
        Ok ((i, (a, r)) :: more)
      else highlight threshold angles readings rest
  end.

(** [a * b] on two arrays, element by element; arrays of different lengths
    do not broadcast and raise [ValueError]. *)
Fixpoint multiply (a b : list Np.float64) : result (list Np.float64) :=
  match a, b with
  | [], [] => Ok []
  | x :: a', y :: b' => rest <- multiply a' b' ;; Ok (Np.mul x y :: rest)
  | _, _ => Raise ValueError
  end.

(** [readings * np.cos(angles + np.deg2rad(heading_angle))] and the same
    with [np.sin]. *)
Definition x_local (readings : list Np.float64) (angles : list R)
  (heading_angle : Z) : result (list Np.float64) :=
  multiply readings
    (map (fun a => Np.Fin (cos (a + Np.deg2rad (IZR heading_angle)))) angles).

Definition y_local (readings : list Np.float64) (angles : list R)
  (heading_angle : Z) : result (list Np.float64) :=
  multiply readings
    (map (fun a => Np.Fin (sin (a + Np.deg2rad (IZR heading_angle)))) angles).

(** [array + scalar] *)
Definition shift (a : list Np.float64) (s : R) : list Np.float64 :=
  map (fun v => Np.add v (Np.Fin s)) a.

(** [update(frame)].  The two [clear()] calls that open the function draw
    nothing and are not part of the state returned. *)
Definition update (data : list SensorFrame) (frame : Z) : result RenderState :=
  row <- Pd.loc data frame ;;
  let readings := US row in
  first_reading <- Np.getitem readings 0 ;;
  let readings := Np.append readings first_reading in
  first_angle <- Np.getitem angles_rad 0 ;;
  let angles := Np.append angles_rad first_angle in
  row <- Pd.loc data frame ;;
  let move_class := cls row in
  let base_color := dict_get movement_colors move_class "gray" in
  highest <- Np.nanmax (List.concat (map US data)) ;;
  let rmax := Np.mul highest (Np.Fin 1.1) in
  close <- highlight (Np.Fin OBSTACLE_THRESHOLD) angles readings
             (seq 0 (List.length sensor_cols)) ;;
  let path := Np.slice_to (positions data) (frame + 1) in
  robot <- Np.getitem (positions data) frame ;;
  let (robot_x, robot_y) := robot in
  heading_angle <- Np.getitem (headings data) frame ;;
  let dx := cos (Np.deg2rad (IZR heading_angle)) * 10 in
  let dy := sin (Np.deg2rad (IZR heading_angle)) * 10 in
  xs <- x_local (Np.slice_to readings (-1)) (Np.slice_to angles (-1))
          heading_angle ;;
  ys <- y_local (Np.slice_to readings (-1)) (Np.slice_to angles (-1))
          heading_angle ;;
  Ok {| radar_angles := angles;
        radar_readings := readings;
        move_class := move_class;
        base_color := base_color;
        radar_rmax := rmax;
        close_obstacles := close;
        path := path;
        robot := (robot_x, robot_y);
        heading_angle := heading_angle;
        arrow := (dx, dy);
        circle := ((robot_x, robot_y), OBSTACLE_THRESHOLD);
        obstacle_x := shift xs robot_x;
        obstacle_y := shift ys robot_y;
        title := ((frame + 1)%Z, (List.length data, move_class)) |}.

(** The points of the last scatter call of [update] for a robot at
    [(x, y)] with heading [h]: [(x_local + robot_x, y_local + robot_y)],
    where [readings[:-1]] is the row and [angles[:-1]] is [angles_rad]. *)
Definition project (x y : R) (h : Z) (readings : list Np.float64)
  : result (list (Np.float64 * Np.float64)) :=
  xs <- x_local readings angles_rad h ;;
  ys <- y_local readings angles_rad h ;;
  Ok (combine (shift xs x) (shift ys y)).

(** ** Vocabulary of the specification *)

(** The straight-line distance between the positions of two poses. *)
Definition distance (p q : Pose) : R :=
  sqrt ((pose_x q - pose_x p) * (pose_x q - pose_x p) +
        (pose_y q - pose_y p) * (pose_y q - pose_y p)).

(** The step length the specification gives each label. *)
Definition step_length (c : string) : R :=
  if String.eqb c "Move-Forward" then 2
  else if String.eqb c "Slight-Right-Turn" then 1.5
  else if String.eqb c "Slight-Left-Turn" then 1.5
  else 0.

(** The heading change the specification gives each label, in degrees. *)
Definition heading_delta (c : string) : Z :=
  if String.eqb c "Slight-Right-Turn" then (-10)%Z
  else if String.eqb c "Sharp-Right-Turn" then (-25)%Z
  else if String.eqb c "Slight-Left-Turn" then 10%Z
  else 0%Z.

Definition heading_sum (labels : list string) : Z :=
  fold_right Z.add 0%Z (map heading_delta labels).

(** "Reading [i] is finite and below the threshold", the highlight rule as
    the specification words it. *)
Definition finite_and_close (readings : list Np.float64) (i : nat) : Prop :=
  (i < 24)%nat /\
  exists r, nth_error readings i = Some r /\
            Np.isfinite r = true /\ Np.ltb r (Np.Fin 30) = true.

(** "[M] is the maximum finite reading of the dataset". *)
Definition max_finite_reading (data : list SensorFrame) (M : R) : Prop :=
  In (Np.Fin M) (List.concat (map US data)) /\
  forall v, In (Np.Fin v) (List.concat (map US data)) -> v <= M.

(** [a <= b] on values that are not not-a-number. *)
Definition le (a b : Np.float64) : Prop :=
  Np.isnan a = false /\ Np.isnan b = false /\ Np.ltb b a = false.

(** ** The animation driver *)

(** [FuncAnimation(fig, update, frames=len(data), repeat=False)]: an
    integer [frames] stands for [range(frames)], the frame sequence of the
    driver; every index the driver hands to [update] is taken from it. *)
Definition frames (data : list SensorFrame) : list Z :=
  map Z.of_nat (seq 0 (List.length data)).

(** ** Vocabulary for the movement loop *)

(** The labels the movement loop tests for. *)
Definition known_label (c : string) : bool :=
  String.eqb c "Move-Forward" || String.eqb c "Slight-Right-Turn" ||
  String.eqb c "Sharp-Right-Turn" || String.eqb c "Slight-Left-Turn".

(** The poses visited from [p] under [labels], as a left scan of the
    motion model: the start pose, then one pose per label. *)
Fixpoint poses_from (p : Pose) (labels : list string) : list Pose :=
  match labels with
  | [] => [p]
  | c :: rest => p :: poses_from (next_pose p c) rest
  end.

(** The straight-line distance between two points of the map. *)
Definition gap (a b : R * R) : R :=
  sqrt ((fst b - fst a) * (fst b - fst a) + (snd b - snd a) * (snd b - snd a)).

(** ** Sample datasets *)

(** A single frame, 24 readings of 100, label Move-Forward. *)
Definition clear_frame : SensorFrame :=
  {| US := repeat (Np.Fin 100) 24; cls := "Move-Forward"; US_len := eq_refl |}.

(** The same frame with the first reading replaced. *)
Definition frame_with (first : Np.float64) : SensorFrame :=
  {| US := first :: repeat (Np.Fin 100) 23; cls := "Move-Forward";
     US_len := eq_refl |}.

(** * Properties *)

(** ** Lists *)

Lemma last_snoc {A : Type} (l : list A) (a d : A) : last (l ++ [a]) d = a.
Proof.
  induction l as [|b l IH]; [reflexivity|].
  simpl. destruct (l ++ [a]) eqn:E; [destruct l; discriminate|]. exact IH.
Qed.

Lemma nth_error_last {A : Type} (l : list A) (d : A) :
  l <> [] -> nth_error l (List.length l - 1) = Some (last l d).
Proof.
  induction l as [|a l IH]; [congruence|]. intros _.
  destruct l as [|b l]; [reflexivity|].
  specialize (IH ltac:(discriminate)).
  cbn [List.length Nat.sub] in *. rewrite Nat.sub_0_r in *. exact IH.
Qed.

Lemma firstn_snoc_all {A : Type} (l : list A) (a : A) :
  firstn (List.length l) (l ++ [a]) = l.
Proof.
  rewrite firstn_app, Nat.sub_diag, firstn_all. simpl. apply app_nil_r.
Qed.

Lemma combine_snoc {A B : Type} (l : list A) (m : list B) (a : A) (b : B) :
  List.length l = List.length m ->
  combine (l ++ [a]) (m ++ [b]) = combine l m ++ [(a, b)].
Proof.
  revert m. induction l as [|x l IH]; intros [|y m] H; try discriminate.
  - reflexivity.
  - simpl. f_equal. apply IH. now injection H.
Qed.

Lemma last_combine {A B : Type} (l : list A) (m : list B) (a : A) (b : B) :
  List.length l = List.length m ->
  last (combine l m) (a, b) = (last l a, last m b).
Proof.
  revert m. induction l as [|x l IH]; intros [|y m] H; try discriminate.
  - reflexivity.
  - injection H as H. specialize (IH m H).
    destruct l as [|x' l], m as [|y' m]; try discriminate; [reflexivity|].
    exact IH.
Qed.

Lemma last_map_default {A B : Type} (f : A -> B) (l : list A) (d : A) :
  last (map f l) (f d) = f (last l d).
Proof.
  induction l as [|a l IH]; [reflexivity|].
  destruct l as [|b l]; [reflexivity|]. exact IH.
Qed.

(** ** The movement loop *)

Lemma simulate_snoc (l : list string) (c : string) :
  simulate (l ++ [c]) = loop_body (simulate l) c.
Proof. unfold simulate. now rewrite fold_left_app. Qed.

Lemma simulate_length (l : list string) :
  List.length (fst (simulate l)) = S (List.length l) /\
  List.length (snd (simulate l)) = S (List.length l).
Proof.
  induction l as [|c l [IHp IHh]] using rev_ind; [now split|].
  rewrite simulate_snoc. destruct (simulate l) as [ps hs]. simpl in *.
  destruct (last ps (0, 0)) as [x y]. simpl.
  rewrite !length_app, IHp, IHh. simpl. split; lia.
Qed.

Lemma trajectory_nil : trajectory [] = [origin].
Proof. reflexivity. Qed.

Lemma trajectory_snoc (l : list string) (c : string) :
  trajectory (l ++ [c]) = trajectory l ++ [next_pose (last (trajectory l) origin) c].
Proof.
  unfold trajectory. rewrite simulate_snoc.
  destruct (simulate_length l) as [Hp Hh].
  destruct (simulate l) as [ps hs]. simpl in Hp, Hh. unfold loop_body.
  destruct (last ps (0, 0)) as [x y] eqn:Hlast.
  rewrite combine_snoc by congruence. rewrite map_app. simpl. f_equal.
  change origin with ((fun ph : (R * R) * Z => to_pose (fst ph) (snd ph)) ((0, 0), 0%Z)).
  rewrite last_map_default, last_combine by congruence.
  rewrite Hlast. unfold to_pose. simpl.
  now destruct (next_pose (mkPose x y (last hs 0%Z)) c).
Qed.

Lemma trajectory_length (l : list string) :
  List.length (trajectory l) = S (List.length l).
Proof.
  induction l as [|c l IH] using rev_ind; [reflexivity|].
  rewrite trajectory_snoc, !length_app, IH. simpl. lia.
Qed.

Lemma trajectory_step (l : list string) (i : nat) (c : string) :
  nth_error l i = Some c ->
  exists p, nth_error (trajectory l) i = Some p /\
            nth_error (trajectory l) (S i) = Some (next_pose p c).
Proof.
  revert i c. induction l as [|c' l IH] using rev_ind; intros i c Hi.
  - destruct i; discriminate.
  - rewrite trajectory_snoc.
    assert (Hlen := trajectory_length l).
    destruct (Nat.lt_ge_cases i (List.length l)) as [Hlt|Hge].
    + rewrite nth_error_app1 in Hi by exact Hlt.
      destruct (IH i c Hi) as (p & Hp & Hn). exists p.
      rewrite !nth_error_app1 by lia. now split.
    + assert (i = List.length l) as ->.
      { assert (i < List.length (l ++ [c']))%nat as Hb
          by (apply nth_error_Some; congruence).
        rewrite length_app in Hb. simpl in Hb. lia. }
      rewrite nth_error_app2, Nat.sub_diag in Hi by lia. injection Hi as ->.
      exists (last (trajectory l) origin). split.
      * rewrite nth_error_app1 by lia.
        replace (List.length l) with (List.length (trajectory l) - 1)%nat by lia.
        apply nth_error_last. intros E. rewrite E in Hlen. discriminate.
      * rewrite nth_error_app2 by lia.
        replace (S (List.length l) - List.length (trajectory l))%nat with 0%nat by lia.
        reflexivity.
Qed.

Lemma trajectory_positions (l : list string) :
  map (fun p => (pose_x p, pose_y p)) (trajectory l) = fst (simulate l).
Proof.
  unfold trajectory. destruct (simulate_length l) as [Hp Hh].
  destruct (simulate l) as [ps hs]. simpl in *.
  assert (List.length ps = List.length hs) as H by congruence. clear Hp Hh.
  revert hs H. induction ps as [|[x y] ps IH]; intros [|h hs] H; try discriminate.
  - reflexivity.
  - simpl. f_equal. apply IH. now injection H.
Qed.

Lemma trajectory_headings (l : list string) :
  map pose_heading (trajectory l) = snd (simulate l).
Proof.
  unfold trajectory. destruct (simulate_length l) as [Hp Hh].
  destruct (simulate l) as [ps hs]. simpl in *.
  assert (List.length ps = List.length hs) as H by congruence. clear Hp Hh.
  revert hs H. induction ps as [|[x y] ps IH]; intros [|h hs] H; try discriminate.
  - reflexivity.
  - simpl. f_equal. apply IH. now injection H.
Qed.

(** ** Indexing and slicing *)

Lemma getitem_nat {A : Type} (l : list A) (i : nat) (v : A) :
  nth_error l i = Some v -> Np.getitem l (Z.of_nat i) = Ok v.
Proof.
  intros H. unfold Np.getitem.
  destruct (Z.ltb_spec (Z.of_nat i) 0) as [Hneg|_]; [lia|].
  destruct (Z.ltb_spec (Z.of_nat i) 0) as [Hneg|_]; [lia|].
  now rewrite Nat2Z.id, H.
Qed.

Lemma getitem_nonneg {A : Type} (l : list A) (i : Z) (v : A) :
  (0 <= i)%Z -> nth_error l (Z.to_nat i) = Some v -> Np.getitem l i = Ok v.
Proof.
  intros Hi H. rewrite <- (Z2Nat.id i Hi). now apply getitem_nat.
Qed.

Lemma slice_to_nonneg {A : Type} (l : list A) (stop : Z) :
  (0 <= stop)%Z -> Np.slice_to l stop = firstn (Z.to_nat stop) l.
Proof.
  intros H. unfold Np.slice_to.
  destruct (Z.ltb_spec stop 0) as [Hneg|_]; [lia|].
  now rewrite Z.max_r.
Qed.

Lemma slice_to_drop_last {A : Type} (l : list A) (a : A) :
  Np.slice_to (Np.append l a) (-1) = l.
Proof.
  unfold Np.slice_to, Np.append. rewrite length_app. simpl List.length.
  change (-1 <? 0)%Z with true. cbv iota.
  replace (Z.max 0 (-1 + Z.of_nat (List.length l + 1)))%Z
    with (Z.of_nat (List.length l)) by lia.
  rewrite Nat2Z.id. apply firstn_snoc_all.
Qed.

Lemma loc_valid {A : Type} (data : list A) (frame : Z) (row : A) :
  (0 <= frame)%Z -> nth_error data (Z.to_nat frame) = Some row ->
  Pd.loc data frame = Ok row.
Proof.
  intros Hf H. unfold Pd.loc.
  destruct (Z.ltb_spec frame 0) as [Hneg|_]; [lia|]. now rewrite H.
Qed.

Lemma loc_out_of_range {A : Type} (data : list A) (frame : Z) :
  (frame < 0 \/ Z.of_nat (List.length data) <= frame)%Z ->
  Pd.loc data frame = Raise KeyError.
Proof.
  intros H. unfold Pd.loc.
  destruct (Z.ltb_spec frame 0) as [Hneg|Hpos]; [reflexivity|].
  destruct (nth_error data (Z.to_nat frame)) eqn:E; [|reflexivity].
  assert (Z.to_nat frame < List.length data)%nat
    by (apply nth_error_Some; congruence).
  lia.
Qed.

(** ** The highlight loop and the element-wise product *)

Lemma highlight_ok (threshold : Np.float64) (angles : list R)
  (readings : list Np.float64) (idx : list nat) :
  (forall i, In i idx ->
     (i < List.length readings)%nat /\ (i < List.length angles)%nat) ->
  highlight threshold angles readings idx =
  Ok (map (fun i => (i, (nth i angles 0, nth i readings Np.NaN)))
        (filter (fun i => Np.ltb (nth i readings Np.NaN) threshold) idx)).
Proof.
  induction idx as [|i idx IH]; intros H; [reflexivity|].
  destruct (H i (or_introl eq_refl)) as [Hr Ha].
  cbn [highlight filter].
  rewrite (getitem_nat readings i (nth i readings Np.NaN))
    by (now apply nth_error_nth').
  cbn [bind]. rewrite IH by (intros j Hj; apply H; now right).
  destruct (Np.ltb (nth i readings Np.NaN) threshold); [|reflexivity].
  rewrite (getitem_nat angles i (nth i angles 0)) by (now apply nth_error_nth').
  reflexivity.
Qed.

Lemma multiply_ok (a b : list Np.float64) :
  List.length a = List.length b ->
  multiply a b = Ok (map (fun ab => Np.mul (fst ab) (snd ab)) (combine a b)).
Proof.
  revert b. induction a as [|x a IH]; intros [|y b] H; try discriminate.
  - reflexivity.
  - cbn [multiply]. rewrite IH by (now injection H). reflexivity.
Qed.

(** ** [update] on a frame of the table *)

Lemma valid_frame_row (data : list SensorFrame) (frame : Z) :
  (0 <= frame < Z.of_nat (List.length data))%Z ->
  exists row, nth_error data (Z.to_nat frame) = Some row.
Proof.
  intros H. destruct (nth_error data (Z.to_nat frame)) eqn:E; [eauto|].
  apply nth_error_None in E. lia.
Qed.

Lemma valid_frame_pose (data : list SensorFrame) (frame : Z) :
  (0 <= frame <= Z.of_nat (List.length data))%Z ->
  exists p, nth_error (trajectory (map cls data)) (Z.to_nat frame) = Some p /\
            nth_error (positions data) (Z.to_nat frame) = Some (pose_x p, pose_y p) /\
            nth_error (headings data) (Z.to_nat frame) = Some (pose_heading p).
Proof.
  intros H.
  destruct (nth_error (trajectory (map cls data)) (Z.to_nat frame)) as [p|] eqn:E.
  - exists p. split; [reflexivity|]. unfold positions, headings.
    rewrite <- trajectory_positions, <- trajectory_headings.
    rewrite !nth_error_map, E. now split.
  - apply nth_error_None in E. rewrite trajectory_length, length_map in E. lia.
Qed.

Lemma nanmax_nonempty (data : list SensorFrame) (row : SensorFrame) (k : nat) :
  nth_error data k = Some row ->
  exists v rest, List.concat (map US data) = v :: rest /\
                 Np.nanmax (List.concat (map US data)) = Ok (fold_left Np.fmax rest v).
Proof.
  intros H. destruct (List.concat (map US data)) as [|v rest] eqn:E.
  - exfalso. apply nth_error_In in H.
    assert (In (US row) (map US data)) as Hin by (now apply in_map).
    assert (Hlen := US_len row).
    destruct (US row) as [|r rs] eqn:Erow; [discriminate|].
    assert (In r (List.concat (map US data))) as Hr
      by (apply in_concat; exists (r :: rs); split; [assumption|now left]).
    rewrite E in Hr. destruct Hr.
  - exists v, rest. now split.
Qed.

Lemma update_valid (data : list SensorFrame) (frame : Z) (row : SensorFrame)
  (x y : R) (h : Z) (m : Np.float64) :
  (0 <= frame)%Z ->
  nth_error data (Z.to_nat frame) = Some row ->
  nth_error (positions data) (Z.to_nat frame) = Some (x, y) ->
  nth_error (headings data) (Z.to_nat frame) = Some h ->
  Np.nanmax (List.concat (map US data)) = Ok m ->
  let readings := Np.append (US row) (nth 0 (US row) Np.NaN) in
  let angles := Np.append angles_rad (Np.deg2rad (IZR 180)) in
  update data frame =
  Ok {| radar_angles := angles;
        radar_readings := readings;
        move_class := cls row;
        base_color := dict_get movement_colors (cls row) "gray";
        radar_rmax := Np.mul m (Np.Fin 1.1);
        close_obstacles :=
          map (fun i => (i, (nth i angles 0, nth i readings Np.NaN)))
            (filter (fun i => Np.ltb (nth i readings Np.NaN)
                                (Np.Fin OBSTACLE_THRESHOLD))
               (seq 0 (List.length sensor_cols)));
        path := firstn (Z.to_nat (frame + 1)) (positions data);
        robot := (x, y);
        heading_angle := h;
        arrow := (cos (Np.deg2rad (IZR h)) * 10, sin (Np.deg2rad (IZR h)) * 10);
        circle := ((x, y), OBSTACLE_THRESHOLD);
        obstacle_x :=
          shift (map (fun ab => Np.mul (fst ab) (snd ab))
                   (combine (US row)
                      (map (fun a => Np.Fin (cos (a + Np.deg2rad (IZR h))))
                         angles_rad))) x;
        obstacle_y :=
          shift (map (fun ab => Np.mul (fst ab) (snd ab))
                   (combine (US row)
                      (map (fun a => Np.Fin (sin (a + Np.deg2rad (IZR h))))
                         angles_rad))) y;
        title := ((frame + 1)%Z, (List.length data, cls row)) |}.
Proof.
  intros Hf Hrow Hpos Hhead Hmax readings angles.
  assert (Hlen := US_len row).
  unfold update.
  rewrite (loc_valid data frame row Hf Hrow). cbn [bind].
  rewrite (getitem_nonneg (US row) 0 (nth 0 (US row) Np.NaN))
    by (try lia; apply nth_error_nth'; rewrite Hlen; simpl; lia).
  cbn [bind].
  rewrite (getitem_nonneg angles_rad 0 (Np.deg2rad (IZR 180)))
    by (try lia; reflexivity).
  cbn [bind]. fold readings. fold angles.
  rewrite Hmax. cbn [bind].
  rewrite highlight_ok.
  2:{ intros i Hi. apply in_seq in Hi. unfold readings, angles, Np.append.
      rewrite !length_app, Hlen. simpl. simpl in Hi. lia. }
  cbn [bind].
  rewrite (getitem_nonneg (positions data) frame (x, y) Hf Hpos). cbn [bind].
  rewrite (getitem_nonneg (headings data) frame h Hf Hhead). cbn [bind].
  unfold x_local, y_local, readings, angles.
  rewrite !slice_to_drop_last.
  rewrite !multiply_ok by (rewrite length_map, Hlen; reflexivity).
  cbn [bind].
  rewrite slice_to_nonneg by lia.
  reflexivity.
Qed.

(** ** The motion model *)

(** C1.  The motion model is a total function of pose and label.
    Move-Forward keeps the heading and advances 2 units along it;
    Slight-Right-Turn subtracts 10 degrees and advances 1.5 units along the
    new heading; Sharp-Right-Turn subtracts 25 degrees and keeps the
    position; Slight-Left-Turn adds 10 degrees and advances 1.5 units along
    the new heading; every other label leaves the pose unchanged.  The
    translation is the magnitude times (cos, sin) of the heading, the
    heading converted from degrees to radians. *)
Theorem next_pose_table (p : Pose) :
  let x := pose_x p in
  let y := pose_y p in
  let h := pose_heading p in
  let rad (d : Z) := IZR d * PI / 180 in
  next_pose p "Move-Forward" =
    mkPose (x + 2 * cos (rad h)) (y + 2 * sin (rad h)) h /\
  next_pose p "Slight-Right-Turn" =
    mkPose (x + 1.5 * cos (rad (h - 10)%Z)) (y + 1.5 * sin (rad (h - 10)%Z)) (h - 10) /\
  next_pose p "Sharp-Right-Turn" = mkPose x y (h - 25) /\
  next_pose p "Slight-Left-Turn" =
    mkPose (x + 1.5 * cos (rad (h + 10)%Z)) (y + 1.5 * sin (rad (h + 10)%Z)) (h + 10) /\
  (forall c : string,
     c <> "Move-Forward"%string -> c <> "Slight-Right-Turn"%string ->
     c <> "Sharp-Right-Turn"%string -> c <> "Slight-Left-Turn"%string ->
     next_pose p c = p).
Proof.
  destruct p as [x y h]. cbv zeta. cbn [pose_x pose_y pose_heading].
  assert (Hrad : forall d, Np.deg2rad (IZR d) = IZR d * PI / 180)
    by (intros d; unfold Np.deg2rad; lra).
  split; [|split; [|split; [|split]]].
  - unfold next_pose. cbn [String.eqb Ascii.eqb Bool.eqb pose_x pose_y pose_heading].
    rewrite Hrad. f_equal; lra.
  - unfold next_pose. cbn [String.eqb Ascii.eqb Bool.eqb pose_x pose_y pose_heading].
    cbv zeta. rewrite Hrad. f_equal; lra.
  - reflexivity.
  - unfold next_pose. cbn [String.eqb Ascii.eqb Bool.eqb pose_x pose_y pose_heading].
    cbv zeta. rewrite Hrad. f_equal; lra.
  - intros c H1 H2 H3 H4. unfold next_pose.
    apply String.eqb_neq in H1, H2, H3, H4.
    now rewrite H1, H2, H3, H4.
Qed.

Lemma next_pose_table_witness : next_pose origin "Stop" = origin.
Proof.
  apply (proj2 (proj2 (proj2 (proj2 (next_pose_table origin))))); discriminate.
Defined.

(** ** The trajectory *)

(** C2.  For every sequence of movement labels the pose history has
    [len(labels) + 1] entries (in both lists the script keeps), entry 0 is
    the pose (0, 0) with heading 0, and entry [i + 1] is the motion model
    applied to entry [i] and label [i]. *)
Theorem trajectory_fold (labels : list string) :
  List.length (trajectory labels) = (List.length labels + 1)%nat /\
  List.length (fst (simulate labels)) = (List.length labels + 1)%nat /\
  List.length (snd (simulate labels)) = (List.length labels + 1)%nat /\
  nth_error (trajectory labels) 0 = Some (mkPose 0 0 0) /\
  (forall (i : nat) (c : string),
     nth_error labels i = Some c ->
     exists p, nth_error (trajectory labels) i = Some p /\
               nth_error (trajectory labels) (i + 1) = Some (next_pose p c)).
Proof.
  destruct (simulate_length labels) as [Hp Hh].
  rewrite trajectory_length, Hp, Hh, !Nat.add_1_r.
  split; [|split; [|split; [|split]]]; try reflexivity.
  - induction labels as [|c l IH] using rev_ind; [reflexivity|].
    rewrite trajectory_snoc, nth_error_app1; [apply IH; apply simulate_length|].
    rewrite trajectory_length. lia.
  - intros i c Hi. rewrite Nat.add_1_r. now apply trajectory_step.
Qed.

Lemma trajectory_fold_witness :
  exists p,
    nth_error (trajectory ["Move-Forward"; "Slight-Left-Turn"]%string) 1 = Some p /\
    nth_error (trajectory ["Move-Forward"; "Slight-Left-Turn"]%string) (1 + 1) =
      Some (next_pose p "Slight-Left-Turn").
Proof.
  apply (proj2 (proj2 (proj2 (proj2
           (trajectory_fold ["Move-Forward"; "Slight-Left-Turn"]%string))))).
  reflexivity.
Defined.

(** ** Step lengths *)

Lemma sqrt_scaled_unit (m t : R) :
  0 <= m -> sqrt (cos t * m * (cos t * m) + sin t * m * (sin t * m)) = m.
Proof.
  intros Hm. assert (H := sin2_cos2 t). unfold Rsqr in H.
  replace (cos t * m * (cos t * m) + sin t * m * (sin t * m))
    with (m * m * (sin t * sin t + cos t * cos t)) by ring.
  rewrite H, Rmult_1_r. now apply sqrt_square.
Qed.

Lemma distance_advance (x y : R) (h h' : Z) (m t : R) :
  0 <= m ->
  distance (mkPose x y h) (mkPose (x + cos t * m) (y + sin t * m) h') = m.
Proof.
  intros Hm. unfold distance. cbn [pose_x pose_y].
  replace (x + cos t * m - x) with (cos t * m) by ring.
  replace (y + sin t * m - y) with (sin t * m) by ring.
  now apply sqrt_scaled_unit.
Qed.

Lemma distance_stay (x y : R) (h h' : Z) :
  distance (mkPose x y h) (mkPose x y h') = 0.
Proof.
  unfold distance. cbn [pose_x pose_y].
  replace ((x - x) * (x - x) + (y - y) * (y - y)) with 0 by ring.
  apply sqrt_0.
Qed.

Lemma next_pose_distance (p : Pose) (c : string) :
  distance p (next_pose p c) = step_length c.
Proof.
  destruct p as [x y h]. unfold next_pose, step_length.
  cbn [pose_x pose_y pose_heading].
  destruct (String.eqb c "Move-Forward") eqn:E1;
    [apply distance_advance; lra|].
  destruct (String.eqb c "Slight-Right-Turn") eqn:E2;
    [apply distance_advance; lra|].
  destruct (String.eqb c "Sharp-Right-Turn") eqn:E3.
  - apply String.eqb_eq in E3. subst c. apply distance_stay.
  - destruct (String.eqb c "Slight-Left-Turn") eqn:E4;
      [apply distance_advance; lra|apply distance_stay].
Qed.

(** Over exact real arithmetic only: the distance between the consecutive
    poses [i] and [i + 1] of the trajectory is 2 for Move-Forward, 1.5 for
    Slight-Right-Turn and Slight-Left-Turn, and 0 for Sharp-Right-Turn and
    every unrecognized label.  The proof rests on cos^2 + sin^2 = 1; the
    binary64 values the script stores satisfy this only up to rounding
    (the step after [Move-Forward; Slight-Left-Turn] measures
    1.4999999999999998), so this is a fact about the idealised positions,
    not about the stored ones. *)
Lemma step_distance (labels : list string) (i : nat) (c : string) :
  nth_error labels i = Some c ->
  exists p q,
    nth_error (trajectory labels) i = Some p /\
    nth_error (trajectory labels) (i + 1) = Some q /\
    (c = "Move-Forward"%string -> distance p q = 2) /\
    (c = "Slight-Right-Turn"%string \/ c = "Slight-Left-Turn"%string ->
     distance p q = 1.5) /\
    (c <> "Move-Forward"%string -> c <> "Slight-Right-Turn"%string ->
     c <> "Slight-Left-Turn"%string -> distance p q = 0) /\
    (distance p q = 0 \/ distance p q = 1.5 \/ distance p q = 2).
Proof.
  intros Hi. destruct (trajectory_step labels i c Hi) as (p & Hp & Hq).
  exists p, (next_pose p c). rewrite Nat.add_1_r.
  split; [exact Hp|]. split; [exact Hq|].
  rewrite next_pose_distance. unfold step_length.
  split; [|split; [|split]].
  - intros ->. reflexivity.
  - intros [-> | ->]; reflexivity.
  - intros H1 H2 H3. apply String.eqb_neq in H1, H2, H3. now rewrite H1, H2, H3.
  - destruct (String.eqb c "Move-Forward"); [now right; right|].
    destruct (String.eqb c "Slight-Right-Turn"); [now right; left|].
    destruct (String.eqb c "Slight-Left-Turn"); [now right; left|now left].
Qed.

(** ** Headings *)

Lemma next_pose_heading (p : Pose) (c : string) :
  pose_heading (next_pose p c) = (pose_heading p + heading_delta c)%Z.
Proof.
  unfold next_pose, heading_delta.
  destruct (String.eqb c "Move-Forward") eqn:E1.
  - apply String.eqb_eq in E1. subst c. cbn. lia.
  - destruct (String.eqb c "Slight-Right-Turn"); [cbn; lia|].
    destruct (String.eqb c "Sharp-Right-Turn"); [cbn; lia|].
    destruct (String.eqb c "Slight-Left-Turn"); cbn; lia.
Qed.

Lemma firstn_succ_snoc {A : Type} (l : list A) (k : nat) (a : A) :
  nth_error l k = Some a -> firstn (S k) l = firstn k l ++ [a].
Proof.
  revert k. induction l as [|b l IH]; intros [|k] H; try discriminate.
  - injection H as ->. reflexivity.
  - cbn [firstn app]. f_equal. now apply IH.
Qed.

Lemma heading_sum_snoc (l : list string) (c : string) :
  heading_sum (l ++ [c]) = (heading_sum l + heading_delta c)%Z.
Proof.
  unfold heading_sum. induction l as [|a l IH]; simpl; [lia|].
  rewrite IH. lia.
Qed.

Lemma trajectory_origin (l : list string) :
  nth_error (trajectory l) 0 = Some origin.
Proof.
  induction l as [|c l IH] using rev_ind; [reflexivity|].
  rewrite trajectory_snoc, nth_error_app1; [exact IH|].
  rewrite trajectory_length. lia.
Qed.

Lemma trajectory_heading_sum (labels : list string) (k : nat) (p : Pose) :
  nth_error (trajectory labels) k = Some p ->
  pose_heading p = heading_sum (firstn k labels).
Proof.
  revert p. induction k as [|k IH]; intros p Hk.
  - rewrite trajectory_origin in Hk. injection Hk as <-. reflexivity.
  - assert (S k < List.length (trajectory labels))%nat as Hb
      by (apply nth_error_Some; congruence).
    rewrite trajectory_length in Hb.
    destruct (nth_error labels k) as [c|] eqn:Hc;
      [|apply nth_error_None in Hc; lia].
    destruct (trajectory_step labels k c Hc) as (p' & Hp' & Hn).
    rewrite Hn in Hk. injection Hk as <-.
    rewrite next_pose_heading, (IH p' Hp'), (firstn_succ_snoc labels k c Hc).
    now rewrite heading_sum_snoc.
Qed.

Lemma headings_sum (labels : list string) (k : nat) :
  (k <= List.length labels)%nat ->
  nth_error (snd (simulate labels)) k = Some (heading_sum (firstn k labels)).
Proof.
  intros Hk. rewrite <- trajectory_headings, nth_error_map.
  destruct (nth_error (trajectory labels) k) as [p|] eqn:E.
  - simpl. f_equal. now apply trajectory_heading_sum.
  - apply nth_error_None in E. rewrite trajectory_length in E. lia.
Qed.

(** ** Arithmetic on readings *)

Lemma add_comm (a b : Np.float64) : Np.add a b = Np.add b a.
Proof. destruct a, b; simpl; try reflexivity. f_equal. apply Rplus_comm. Qed.

Lemma add_zero_r (a : Np.float64) : Np.add a (Np.Fin 0) = a.
Proof. destruct a; simpl; try reflexivity. f_equal. apply Rplus_0_r. Qed.

Lemma deg2rad_zero : Np.deg2rad (IZR 0) = 0.
Proof. unfold Np.deg2rad. apply Rmult_0_l. Qed.

Lemma mul_nan_l (b : Np.float64) : Np.mul Np.NaN b = Np.NaN.
Proof. now destruct b. Qed.

Lemma add_nan_l (b : Np.float64) : Np.add Np.NaN b = Np.NaN.
Proof. now destruct b. Qed.

Lemma ltb_nan_l (b : Np.float64) : Np.ltb Np.NaN b = false.
Proof. now destruct b. Qed.

Lemma ltb_true_cases (r : Np.float64) (t : R) :
  Np.ltb r (Np.Fin t) = true <-> r = Np.NInf \/ exists v, r = Np.Fin v /\ v < t.
Proof.
  destruct r as [v| | |]; simpl.
  - destruct (Rlt_dec v t) as [H|H]; split.
    + intros _. right. now exists v.
    + reflexivity.
    + discriminate.
    + intros [E|(w & E & Hw)]; [discriminate|]. injection E as ->. contradiction.
  - split; [discriminate|]. intros [E|(w & E & _)]; discriminate.
  - split; [now left|reflexivity].
  - split; [discriminate|]. intros [E|(w & E & _)]; discriminate.
Qed.

(** ** The projection *)

Lemma nth_error_combine {A B : Type} (l : list A) (m : list B) (i : nat)
  (a : A) (b : B) :
  nth_error l i = Some a -> nth_error m i = Some b ->
  nth_error (combine l m) i = Some (a, b).
Proof.
  revert l m. induction i as [|i IH]; intros [|x l] [|y m] Ha Hb;
    try discriminate.
  - injection Ha as ->. injection Hb as ->. reflexivity.
  - now apply IH.
Qed.

Lemma nth_error_combine_inv {A B : Type} (l : list A) (m : list B) (i : nat)
  (a : A) (b : B) :
  nth_error (combine l m) i = Some (a, b) ->
  nth_error l i = Some a /\ nth_error m i = Some b.
Proof.
  revert l m. induction i as [|i IH]; intros [|x l] [|y m] H;
    try discriminate.
  - injection H as -> ->. now split.
  - now apply IH.
Qed.

Lemma local_nth (f : R -> R) (d x : R) (readings : list Np.float64) (i : nat)
  (r : Np.float64) (b : Z) :
  nth_error readings i = Some r ->
  nth_error angles_deg i = Some b ->
  nth_error
    (shift (map (fun ab => Np.mul (fst ab) (snd ab))
              (combine readings (map (fun a => Np.Fin (f (a + d))) angles_rad))) x) i
  = Some (Np.add (Np.mul r (Np.Fin (f (Np.deg2rad (IZR b) + d)))) (Np.Fin x)).
Proof.
  intros Hr Hb. unfold shift. rewrite !nth_error_map.
  rewrite (nth_error_combine readings _ i r (Np.Fin (f (Np.deg2rad (IZR b) + d))) Hr).
  - reflexivity.
  - unfold angles_rad. now rewrite !nth_error_map, Hb.
Qed.

Lemma project_ok (x y : R) (h : Z) (readings : list Np.float64) :
  List.length readings = 24%nat ->
  project x y h readings =
  Ok (combine
        (shift (map (fun ab => Np.mul (fst ab) (snd ab))
                  (combine readings
                     (map (fun a => Np.Fin (cos (a + Np.deg2rad (IZR h))))
                        angles_rad))) x)
        (shift (map (fun ab => Np.mul (fst ab) (snd ab))
                  (combine readings
                     (map (fun a => Np.Fin (sin (a + Np.deg2rad (IZR h))))
                        angles_rad))) y)).
Proof.
  intros Hlen. unfold project, x_local, y_local.
  rewrite !multiply_ok by (rewrite length_map, Hlen; reflexivity).
  reflexivity.
Qed.

Lemma project_nth (x y : R) (h : Z) (readings : list Np.float64) (i : nat)
  (r : Np.float64) (b : Z) :
  List.length readings = 24%nat ->
  nth_error readings i = Some r ->
  nth_error angles_deg i = Some b ->
  exists pts,
    project x y h readings = Ok pts /\
    nth_error pts i =
      Some (Np.add (Np.mul r (Np.Fin (cos (Np.deg2rad (IZR b) + Np.deg2rad (IZR h)))))
              (Np.Fin x),
            Np.add (Np.mul r (Np.Fin (sin (Np.deg2rad (IZR b) + Np.deg2rad (IZR h)))))
              (Np.Fin y)).
Proof.
  intros Hlen Hr Hb. eexists. split; [now apply project_ok|].
  apply nth_error_combine; now apply local_nth.
Qed.

(** [update] on a frame of the table, with the row, the pose and the
    dataset maximum it reads. *)
Lemma update_frame (data : list SensorFrame) (frame : Z) :
  (0 <= frame < Z.of_nat (List.length data))%Z ->
  exists row p m rs,
    nth_error data (Z.to_nat frame) = Some row /\
    nth_error (trajectory (map cls data)) (Z.to_nat frame) = Some p /\
    Np.nanmax (List.concat (map US data)) = Ok m /\
    update data frame = Ok rs /\
    radar_angles rs = Np.append angles_rad (Np.deg2rad (IZR 180)) /\
    radar_readings rs = Np.append (US row) (nth 0 (US row) Np.NaN) /\
    radar_rmax rs = Np.mul m (Np.Fin 1.1) /\
    close_obstacles rs =
      map (fun i => (i, (nth i (radar_angles rs) 0, nth i (radar_readings rs) Np.NaN)))
        (filter (fun i => Np.ltb (nth i (radar_readings rs) Np.NaN)
                            (Np.Fin OBSTACLE_THRESHOLD))
           (seq 0 24)) /\
    path rs = firstn (Z.to_nat (frame + 1)) (positions data) /\
    robot rs = (pose_x p, pose_y p) /\
    heading_angle rs = pose_heading p /\
    arrow rs = (cos (Np.deg2rad (IZR (pose_heading p))) * 10,
                sin (Np.deg2rad (IZR (pose_heading p))) * 10) /\
    project (pose_x p) (pose_y p) (pose_heading p) (US row) =
      Ok (combine (obstacle_x rs) (obstacle_y rs)).
Proof.
  intros Hf.
  destruct (valid_frame_row data frame Hf) as [row Hrow].
  destruct (valid_frame_pose data frame ltac:(lia)) as (p & Hp & Hxy & Hh).
  destruct (nanmax_nonempty data row _ Hrow) as (v & rest & _ & Hm).
  exists row, p, (fold_left Np.fmax rest v). eexists.
  split; [exact Hrow|]. split; [exact Hp|]. split; [exact Hm|].
  split; [apply (update_valid data frame row _ _ _ _ (proj1 Hf) Hrow Hxy Hh Hm)|].
  cbn [radar_readings radar_rmax close_obstacles path robot heading_angle arrow
       obstacle_x obstacle_y radar_angles].
  repeat (split; [reflexivity|]).
  apply project_ok. apply (US_len row).
Qed.

(** ** Headings as drawn *)




(** ** Projected obstacle points *)

(** C3.  For every pose, reading vector and sensor index [i], point [i] of
    the projection is the position plus
    (reading[i] * cos(bearing[i] + heading), reading[i] * sin(bearing[i] + heading)),
    bearing and heading converted to radians; at the pose (0, 0) with
    heading 0 it is (reading[i] * cos(bearing[i]), reading[i] * sin(bearing[i])).
    [update] draws this projection of the frame's readings from the frame's
    pose. *)
Theorem projection_formula :
  (forall (x y : R) (h : Z) (readings : list Np.float64) (i : nat)
          (r : Np.float64) (b : Z),
     List.length readings = 24%nat ->
     nth_error readings i = Some r ->
     nth_error angles_deg i = Some b ->
     exists pts,
       project x y h readings = Ok pts /\
       nth_error pts i =
         Some (Np.add (Np.Fin x)
                 (Np.mul r (Np.Fin (cos (IZR b * PI / 180 + IZR h * PI / 180)))),
               Np.add (Np.Fin y)
                 (Np.mul r (Np.Fin (sin (IZR b * PI / 180 + IZR h * PI / 180)))))) /\
  (forall (readings : list Np.float64) (i : nat) (r : Np.float64) (b : Z),
     List.length readings = 24%nat ->
     nth_error readings i = Some r ->
     nth_error angles_deg i = Some b ->
     exists pts,
       project 0 0 0 readings = Ok pts /\
       nth_error pts i =
         Some (Np.mul r (Np.Fin (cos (IZR b * PI / 180))),
               Np.mul r (Np.Fin (sin (IZR b * PI / 180))))) /\
  (forall (data : list SensorFrame) (frame : Z),
     (0 <= frame < Z.of_nat (List.length data))%Z ->
     exists rs row p,
       update data frame = Ok rs /\
       nth_error data (Z.to_nat frame) = Some row /\
       nth_error (trajectory (map cls data)) (Z.to_nat frame) = Some p /\
       project (pose_x p) (pose_y p) (pose_heading p) (US row) =
         Ok (combine (obstacle_x rs) (obstacle_y rs))).
Proof.
  assert (Hrad : forall d, Np.deg2rad (IZR d) = IZR d * PI / 180)
    by (intros d; unfold Np.deg2rad; lra).
  split; [|split].
  - intros x y h readings i r b Hlen Hr Hb.
    destruct (project_nth x y h readings i r b Hlen Hr Hb) as (pts & Hp & Hn).
    exists pts. split; [exact Hp|].
    rewrite Hn, !Hrad, (add_comm (Np.Fin x)), (add_comm (Np.Fin y)). reflexivity.
  - intros readings i r b Hlen Hr Hb.
    destruct (project_nth 0 0 0 readings i r b Hlen Hr Hb) as (pts & Hp & Hn).
    exists pts. split; [exact Hp|].
    rewrite Hn, !add_zero_r, deg2rad_zero, Rplus_0_r, Hrad. reflexivity.
  - intros data frame Hf.
    destruct (update_frame data frame Hf)
      as (row & p & m & rs & Hrow & Hp & _ & Hu & _ & _ & _ & _ & _ & _ & _ & _ & Hproj).
    now exists rs, row, p.
Qed.

Lemma projection_formula_witness :
  exists pts,
    project 0 0 0 (repeat (Np.Fin 100) 24) = Ok pts /\
    nth_error pts 12 =
      Some (Np.mul (Np.Fin 100) (Np.Fin (cos (IZR 0 * PI / 180))),
            Np.mul (Np.Fin 100) (Np.Fin (sin (IZR 0 * PI / 180)))).
Proof.
  exact (proj1 (proj2 projection_formula)
           (repeat (Np.Fin 100) 24) 12%nat (Np.Fin 100) 0%Z
           eq_refl eq_refl eq_refl).
Defined.

(** ** The path drawn on the map *)

Lemma path_of_frame (data : list SensorFrame) (frame : Z) :
  (0 <= frame < Z.of_nat (List.length data))%Z ->
  exists rs,
    update data frame = Ok rs /\
    path rs = map (fun p => (pose_x p, pose_y p))
                (firstn (Z.to_nat frame + 1) (trajectory (map cls data))) /\
    List.length (path rs) = (Z.to_nat frame + 1)%nat.
Proof.
  intros Hf.
  destruct (update_frame data frame Hf)
    as (row & p & m & rs & _ & _ & _ & Hu & _ & _ & _ & _ & Hpath & _).
  exists rs. split; [exact Hu|].
  assert (path rs = map (fun p => (pose_x p, pose_y p))
                      (firstn (Z.to_nat frame + 1) (trajectory (map cls data)))) as E.
  { rewrite Hpath. unfold positions. rewrite <- trajectory_positions, firstn_map.
    f_equal. f_equal. lia. }
  split; [exact E|].
  rewrite E, length_map, length_firstn, trajectory_length, length_map. lia.
Qed.

(** C4, as the code has it.  The path drawn at [frame] is the polyline
    through entries 0 to [frame] of the trajectory, [frame + 1] points.  At
    the last frame, [frame = N - 1], these are the first [N] of the [N + 1]
    poses of the trajectory: the pose reached after the last label is
    computed but is not on the path. *)
Theorem path_prefix (data : list SensorFrame) (frame : Z) :
  (0 <= frame < Z.of_nat (List.length data))%Z ->
  exists rs,
    update data frame = Ok rs /\
    path rs = map (fun p => (pose_x p, pose_y p))
                (firstn (Z.to_nat frame + 1) (trajectory (map cls data))) /\
    List.length (path rs) = (Z.to_nat frame + 1)%nat /\
    (forall i : nat,
       (i <= Z.to_nat frame)%nat ->
       exists p, nth_error (trajectory (map cls data)) i = Some p /\
                 nth_error (path rs) i = Some (pose_x p, pose_y p)) /\
    (frame = (Z.of_nat (List.length data) - 1)%Z ->
     List.length (path rs) = List.length data /\
     List.length (trajectory (map cls data)) = (List.length data + 1)%nat).
Proof.
  intros Hf. destruct (path_of_frame data frame Hf) as (rs & Hu & Hpath & Hlen).
  exists rs. split; [exact Hu|]. split; [exact Hpath|]. split; [exact Hlen|]. split.
  - intros i Hi.
    destruct (nth_error (trajectory (map cls data)) i) as [p|] eqn:E.
    + exists p. split; [reflexivity|].
      rewrite Hpath, nth_error_map, nth_error_firstn.
      destruct (Nat.ltb_spec i (Z.to_nat frame + 1)) as [_|Hge]; [|lia].
      now rewrite E.
    + apply nth_error_None in E. rewrite trajectory_length, length_map in E. lia.
  - intros ->. rewrite Hlen, trajectory_length, length_map. lia.
Qed.

Lemma path_prefix_witness :
  exists rs,
    update [clear_frame; clear_frame] 1 = Ok rs /\
    List.length (path rs) = 2%nat.
Proof.
  destruct (path_prefix [clear_frame; clear_frame] 1 ltac:(simpl; lia))
    as (rs & Hu & _ & Hlen & _).
  exists rs. split; [exact Hu|exact Hlen].
Defined.

(** Against C4 as stated: on a table of one Move-Forward frame
    the trajectory has two poses, and the path drawn at the last frame
    (frame 0) holds only the first; the pose (2, 0) is not on it. *)
Lemma path_misses_final_pose :
  exists rs,
    update [clear_frame] 0 = Ok rs /\
    List.length (trajectory (map cls [clear_frame])) = 2%nat /\
    path rs = [(0, 0)] /\
    ~ (forall p, In p (trajectory (map cls [clear_frame])) ->
                 In (pose_x p, pose_y p) (path rs)).
Proof.
  destruct (path_of_frame [clear_frame] 0 ltac:(simpl; lia)) as (rs & Hu & Hpath & _).
  exists rs. split; [exact Hu|]. split; [reflexivity|].
  assert (path rs = [(0, 0)]) as E by (rewrite Hpath; reflexivity).
  split; [exact E|]. intros H.
  specialize (H (next_pose origin "Move-Forward")
                (or_intror (or_introl eq_refl))).
  rewrite E in H. destruct H as [H|[]].
  apply (f_equal fst) in H. cbn in H.
  rewrite deg2rad_zero, cos_0 in H. lra.
Qed.

(** ** Close obstacles *)

Lemma nth_append_row (row : SensorFrame) (i : nat) (v : Np.float64) :
  (i < 24)%nat ->
  nth_error (US row) i = Some (nth i (Np.append (US row) v) Np.NaN).
Proof.
  intros Hi. assert (Hlen := US_len row). simpl in Hlen.
  unfold Np.append. rewrite app_nth1 by lia.
  apply nth_error_nth'. lia.
Qed.

Lemma close_indices (data : list SensorFrame) (frame : Z) :
  (0 <= frame < Z.of_nat (List.length data))%Z ->
  exists rs row,
    update data frame = Ok rs /\
    nth_error data (Z.to_nat frame) = Some row /\
    forall i : nat,
      In i (map fst (close_obstacles rs)) <->
      (i < 24)%nat /\
      exists r, nth_error (US row) i = Some r /\
                Np.ltb r (Np.Fin 30) = true.
Proof.
  intros Hf.
  destruct (update_frame data frame Hf)
    as (row & p & m & rs & Hrow & _ & _ & Hu & _ & Hread & _ & Hclose & _).
  exists rs, row. split; [exact Hu|]. split; [exact Hrow|].
  intros i. rewrite Hclose, map_map, map_id, filter_In, in_seq, Hread.
  unfold OBSTACLE_THRESHOLD. split.
  - intros [[_ Hi] Hlt]. simpl in Hi. split; [exact Hi|].
    eexists. split; [now apply nth_append_row|exact Hlt].
  - intros [Hi (r & Hr & Hlt)]. split; [simpl; lia|].
    rewrite (nth_append_row row i (nth 0 (US row) Np.NaN) Hi) in Hr.
    injection Hr as <-. exact Hlt.
Qed.

(** C5, as the code has it.  For every frame the sensor indices
    highlighted as close obstacles are exactly the [i] in 0..23 whose
    reading compares below 30: the reading is not not-a-number, and it is
    either a number below 30 or negative infinity. *)
Theorem close_obstacle_set (data : list SensorFrame) (frame : Z) :
  (0 <= frame < Z.of_nat (List.length data))%Z ->
  exists rs row,
    update data frame = Ok rs /\
    nth_error data (Z.to_nat frame) = Some row /\
    forall i : nat,
      In i (map fst (close_obstacles rs)) <->
      (i < 24)%nat /\
      exists r, nth_error (US row) i = Some r /\
                Np.isnan r = false /\
                (r = Np.NInf \/ exists v, r = Np.Fin v /\ v < 30).
Proof.
  intros Hf. destruct (close_indices data frame Hf) as (rs & row & Hu & Hrow & H).
  exists rs, row. split; [exact Hu|]. split; [exact Hrow|].
  intros i. rewrite H. split.
  - intros [Hi (r & Hr & Hlt)]. split; [exact Hi|]. exists r. split; [exact Hr|].
    apply ltb_true_cases in Hlt. split; [|exact Hlt].
    destruct Hlt as [->|(v & -> & _)]; reflexivity.
  - intros [Hi (r & Hr & _ & Hlt)]. split; [exact Hi|]. exists r.
    split; [exact Hr|]. now apply ltb_true_cases.
Qed.

Lemma close_obstacle_set_witness :
  exists rs,
    update [frame_with (Np.Fin 12)] 0 = Ok rs /\
    In 0%nat (map fst (close_obstacles rs)).
Proof.
  destruct (close_obstacle_set [frame_with (Np.Fin 12)] 0 ltac:(simpl; lia))
    as (rs & row & Hu & Hrow & H).
  exists rs. split; [exact Hu|]. apply H.
  injection Hrow as <-. split; [lia|].
  exists (Np.Fin 12). split; [reflexivity|]. split; [reflexivity|].
  right. exists 12. split; [reflexivity|lra].
Defined.

(** Against C5 as stated: a reading of negative infinity is
    not finite, and the sensor that reports it is highlighted. *)
Lemma infinite_reading_highlighted :
  exists rs,
    update [frame_with Np.NInf] 0 = Ok rs /\
    In 0%nat (map fst (close_obstacles rs)) /\
    ~ finite_and_close (US (frame_with Np.NInf)) 0 /\
    ~ (forall i : nat,
         In i (map fst (close_obstacles rs)) <->
         finite_and_close (US (frame_with Np.NInf)) i).
Proof.
  destruct (close_indices [frame_with Np.NInf] 0 ltac:(simpl; lia))
    as (rs & row & Hu & Hrow & H).
  injection Hrow as <-.
  assert (In 0%nat (map fst (close_obstacles rs))) as Hin.
  { apply H. split; [lia|]. exists Np.NInf. now split. }
  assert (~ finite_and_close (US (frame_with Np.NInf)) 0) as Hnot.
  { intros [_ (r & Hr & Hfin & _)]. injection Hr as <-. discriminate. }
  exists rs. split; [exact Hu|]. split; [exact Hin|]. split; [exact Hnot|].
  intros Hall. apply Hnot, Hall, Hin.
Qed.

(** ** Not-a-number readings *)

(** C6.  If reading [i] of a frame is not-a-number then, for every pose,
    point [i] of the projection is not-a-number in both coordinates, index
    [i] is not highlighted whatever the threshold, and [update] still
    returns its state: nothing is raised. *)
Theorem nan_reading (data : list SensorFrame) (frame : Z) (row : SensorFrame)
  (i : nat) :
  (0 <= frame < Z.of_nat (List.length data))%Z ->
  nth_error data (Z.to_nat frame) = Some row ->
  nth_error (US row) i = Some Np.NaN ->
  (forall (x y : R) (h : Z),
     exists pts, project x y h (US row) = Ok pts /\
                 nth_error pts i = Some (Np.NaN, Np.NaN)) /\
  exists rs,
    update data frame = Ok rs /\
    nth_error (obstacle_x rs) i = Some Np.NaN /\
    nth_error (obstacle_y rs) i = Some Np.NaN /\
    ~ In i (map fst (close_obstacles rs)) /\
    (forall threshold : Np.float64,
       exists marked,
         highlight threshold (radar_angles rs) (radar_readings rs) (seq 0 24)
           = Ok marked /\
         ~ In i (map fst marked)).
Proof.
  intros Hf Hrow Hnan.
  assert (i < 24)%nat as Hi.
  { assert (i < List.length (US row))%nat by (apply nth_error_Some; congruence).
    now rewrite (US_len row) in H. }
  assert (exists b, nth_error angles_deg i = Some b) as [b Hb].
  { destruct (nth_error angles_deg i) eqn:E; [eauto|].
    apply nth_error_None in E. simpl in E. lia. }
  assert (Hpt : forall x y h,
             exists pts, project x y h (US row) = Ok pts /\
                         nth_error pts i = Some (Np.NaN, Np.NaN)).
  { intros x y h.
    destruct (project_nth x y h (US row) i Np.NaN b (US_len row) Hnan Hb)
      as (pts & Hp & Hn).
    exists pts. split; [exact Hp|]. now rewrite Hn. }
  split; [exact Hpt|].
  destruct (update_frame data frame Hf)
    as (row' & p & m & rs & Hrow' & _ & _ & Hu & Hang & Hread & _ & Hclose & _ & _ & _ & _ & Hproj).
  rewrite Hrow in Hrow'. injection Hrow' as <-.
  assert (Hnth : nth i (radar_readings rs) Np.NaN = Np.NaN).
  { rewrite Hread. rewrite (nth_append_row row i (nth 0 (US row) Np.NaN) Hi) in Hnan.
    now injection Hnan. }
  exists rs. split; [exact Hu|].
  destruct (Hpt (pose_x p) (pose_y p) (pose_heading p)) as (pts & Hp & Hn).
  rewrite Hproj in Hp. injection Hp as <-.
  destruct (nth_error_combine_inv _ _ _ _ _ Hn) as [Hx Hy].
  split; [exact Hx|]. split; [exact Hy|]. split.
  - rewrite Hclose, map_map, map_id, filter_In, Hnth. intros [_ H]. discriminate.
  - intros threshold. eexists. split.
    + apply highlight_ok. intros j Hj. apply in_seq in Hj.
      rewrite Hang, Hread. unfold Np.append. rewrite !length_app, (US_len row).
      simpl. simpl in Hj. lia.
    + rewrite map_map, map_id, filter_In, Hnth, ltb_nan_l. intros [_ H]. discriminate.
Qed.

Lemma nan_reading_witness :
  exists rs,
    update [frame_with Np.NaN] 0 = Ok rs /\
    nth_error (obstacle_x rs) 0 = Some Np.NaN /\
    nth_error (obstacle_y rs) 0 = Some Np.NaN /\
    ~ In 0%nat (map fst (close_obstacles rs)).
Proof.
  destruct (nan_reading [frame_with Np.NaN] 0 (frame_with Np.NaN) 0
              ltac:(simpl; lia) eq_refl eq_refl)
    as [_ (rs & Hu & Hx & Hy & Hc & _)].
  exists rs. split; [exact Hu|]. split; [exact Hx|]. split; [exact Hy|exact Hc].
Defined.

(** ** Frames outside the table *)

(** C7.  For every frame index outside [0, N) the call of [update] fails
    at once, at its first lookup in the table, with [KeyError]; no state is
    returned, so the index is not clamped and no other frame is drawn. *)
Theorem update_out_of_range (data : list SensorFrame) (frame : Z) :
  (frame < 0 \/ Z.of_nat (List.length data) <= frame)%Z ->
  Pd.loc data frame = Raise KeyError /\
  update data frame = Raise KeyError /\
  (forall rs, update data frame <> Ok rs).
Proof.
  intros H. assert (Hloc := loc_out_of_range data frame H).
  assert (update data frame = Raise KeyError) as Hu
    by (unfold update; rewrite Hloc; reflexivity).
  split; [exact Hloc|]. split; [exact Hu|].
  intros rs. rewrite Hu. discriminate.
Qed.

Lemma update_out_of_range_witness :
  update [clear_frame; clear_frame] (-1) = Raise KeyError /\
  update [clear_frame; clear_frame] 2 = Raise KeyError.
Proof.
  split.
  - apply (update_out_of_range [clear_frame; clear_frame] (-1)). left. lia.
  - apply (update_out_of_range [clear_frame; clear_frame] 2). right. simpl. lia.
Defined.

(** ** The radial scale of the radar view *)

Lemma le_refl (a : Np.float64) : Np.isnan a = false -> le a a.
Proof.
  intros H. unfold le. repeat split; try exact H.
  destruct a as [x| | |]; simpl; try reflexivity; try discriminate.
  destruct (Rlt_dec x x); [lra|reflexivity].
Qed.

Lemma le_trans (a b c : Np.float64) : le a b -> le b c -> le a c.
Proof.
  unfold le. intros (Ha & Hb & Hab) (_ & Hc & Hbc).
  repeat split; try assumption.
  destruct a as [x| | |], b as [y| | |], c as [z| | |]; simpl in *;
    try reflexivity; try discriminate.
  destruct (Rlt_dec y x); [discriminate|].
  destruct (Rlt_dec z y); [discriminate|].
  destruct (Rlt_dec z x); [lra|reflexivity].
Qed.

Lemma fmax_cases (a b : Np.float64) : Np.fmax a b = a \/ Np.fmax a b = b.
Proof.
  destruct a, b; simpl; auto;
    match goal with |- context [if ?c then _ else _] => destruct c end; auto.
Qed.

Lemma fmax_ge_l (a b : Np.float64) : Np.isnan a = false -> le a (Np.fmax a b).
Proof.
  intros Ha. destruct b as [y| | |] eqn:Eb.
  4:{ replace (Np.fmax a Np.NaN) with a by (now destruct a). now apply le_refl. }
  all: destruct a as [x| | |]; try discriminate; unfold le; simpl;
    repeat match goal with
           | |- context [Rlt_dec ?u ?v] => destruct (Rlt_dec u v)
           end; simpl; repeat split; try reflexivity;
    repeat match goal with
           | |- context [Rlt_dec ?u ?v] => destruct (Rlt_dec u v)
           end; try reflexivity; lra.
Qed.

Lemma fmax_ge_r (a b : Np.float64) : Np.isnan b = false -> le b (Np.fmax a b).
Proof.
  intros Hb. destruct a as [x| | |] eqn:Ea.
  4:{ simpl. now apply le_refl. }
  all: destruct b as [y| | |]; try discriminate; unfold le; simpl;
    repeat match goal with
           | |- context [Rlt_dec ?u ?v] => destruct (Rlt_dec u v)
           end; simpl; repeat split; try reflexivity;
    repeat match goal with
           | |- context [Rlt_dec ?u ?v] => destruct (Rlt_dec u v)
           end; try reflexivity; lra.
Qed.

Lemma fold_fmax_spec (rest : list Np.float64) (v : Np.float64) :
  In (fold_left Np.fmax rest v) (v :: rest) /\
  (forall u, In u (v :: rest) -> Np.isnan u = false ->
             le u (fold_left Np.fmax rest v)).
Proof.
  revert v. induction rest as [|a rest IH]; intros v.
  - split; [now left|]. intros u [<-|[]] Hu. now apply le_refl.
  - cbn [fold_left]. destruct (IH (Np.fmax v a)) as [Hin Hle]. split.
    + destruct Hin as [E|Hin]; [|now right; right].
      rewrite <- E. destruct (fmax_cases v a) as [-> | ->]; [now left|now right; left].
    + intros u Hu Hnan.
      assert (forall w, le u w -> w = Np.fmax v a ->
                        le u (fold_left Np.fmax rest (Np.fmax v a))) as Hvia.
      { intros w Huw ->. apply (le_trans _ _ _ Huw).
        apply Hle; [now left|]. apply Huw. }
      destruct Hu as [<-|[<-|Hu]].
      * apply (Hvia _ (fmax_ge_l v a Hnan) eq_refl).
      * apply (Hvia _ (fmax_ge_r v a Hnan) eq_refl).
      * apply Hle; [now right|exact Hnan].
Qed.

Lemma nanmax_spec (l : list Np.float64) (m : Np.float64) :
  Np.nanmax l = Ok m ->
  In m l /\ (forall u, In u l -> Np.isnan u = false -> le u m).
Proof.
  destruct l as [|v rest]; [discriminate|]. simpl. intros H.
  injection H as <-. apply fold_fmax_spec.
Qed.

Lemma le_pinf (m : Np.float64) : le Np.PInf m -> m = Np.PInf.
Proof.
  unfold le. intros (_ & Hm & H). destruct m; simpl in *; congruence.
Qed.

Lemma scaled_pinf : Np.mul Np.PInf (Np.Fin 1.1) = Np.PInf.
Proof.
  simpl. unfold Np.scale_inf. destruct (Rlt_dec 0 1.1); [reflexivity|lra].
Qed.

Lemma update_rmax (data : list SensorFrame) (frame : Z) :
  (0 <= frame < Z.of_nat (List.length data))%Z ->
  exists rs m,
    update data frame = Ok rs /\
    Np.nanmax (List.concat (map US data)) = Ok m /\
    radar_rmax rs = Np.mul m (Np.Fin 1.1).
Proof.
  intros Hf.
  destruct (update_frame data frame Hf)
    as (row & p & m & rs & _ & _ & Hm & Hu & _ & _ & Hr & _).
  now exists rs, m.
Qed.

(** C8, as the code has it.  For every frame the upper bound of the radial
    axis is [m * 1.1], where [m] is the greatest reading of the whole
    dataset that is not not-a-number: a reading of the dataset that every
    other such reading is below or equal to.  It is the maximum finite
    reading times 1.1 when no reading is positive infinity, and positive
    infinity when one is.  The bound is the same for every frame. *)
Theorem radar_scale (data : list SensorFrame) (frame : Z) :
  (0 <= frame < Z.of_nat (List.length data))%Z ->
  exists rs m,
    update data frame = Ok rs /\
    radar_rmax rs = Np.mul m (Np.Fin 1.1) /\
    In m (List.concat (map US data)) /\
    (forall u, In u (List.concat (map US data)) -> Np.isnan u = false -> le u m) /\
    (forall M : R,
       max_finite_reading data M ->
       ~ In Np.PInf (List.concat (map US data)) ->
       radar_rmax rs = Np.Fin (M * 1.1)) /\
    (In Np.PInf (List.concat (map US data)) -> radar_rmax rs = Np.PInf) /\
    (forall frame' : Z,
       (0 <= frame' < Z.of_nat (List.length data))%Z ->
       exists rs', update data frame' = Ok rs' /\ radar_rmax rs' = radar_rmax rs).
Proof.
  intros Hf. destruct (update_rmax data frame Hf) as (rs & m & Hu & Hm & Hr).
  destruct (nanmax_spec _ _ Hm) as [Hin Hle].
  exists rs, m. split; [exact Hu|]. split; [exact Hr|]. split; [exact Hin|].
  split; [exact Hle|]. split; [|split].
  - intros M [HM Hmax] Hinf. rewrite Hr.
    destruct (Hle _ HM eq_refl) as (_ & Hnan & Hlt).
    destruct m as [v| | |]; simpl in *; try discriminate.
    + specialize (Hmax v Hin). destruct (Rlt_dec v M); [discriminate|].
      f_equal. f_equal. lra.
    + contradiction.
  - intros Hinf. rewrite Hr, (le_pinf m (Hle _ Hinf eq_refl)). apply scaled_pinf.
  - intros frame' Hf'.
    destruct (update_rmax data frame' Hf') as (rs' & m' & Hu' & Hm' & Hr').
    exists rs'. split; [exact Hu'|]. rewrite Hr', Hr. congruence.
Qed.

Lemma radar_scale_witness :
  exists rs,
    update [clear_frame] 0 = Ok rs /\ radar_rmax rs = Np.Fin (100 * 1.1).
Proof.
  destruct (radar_scale [clear_frame] 0 ltac:(simpl; lia))
    as (rs & m & Hu & _ & _ & _ & Hfin & _).
  exists rs. split; [exact Hu|]. apply Hfin.
  - split; [now left|]. intros v Hv. simpl in Hv.
    repeat (destruct Hv as [Hv|Hv]; [injection Hv as <-; lra|]). destruct Hv.
  - intros Hv. simpl in Hv.
    repeat (destruct Hv as [Hv|Hv]; [discriminate|]). destruct Hv.
Defined.

(** Against C8 as stated: with one reading of positive
    infinity among readings of 100, the maximum finite reading is 100 and
    the bound is positive infinity, not 110. *)
Lemma infinite_reading_scale :
  exists rs,
    update [frame_with Np.PInf] 0 = Ok rs /\
    max_finite_reading [frame_with Np.PInf] 100 /\
    radar_rmax rs = Np.PInf /\
    radar_rmax rs <> Np.Fin (100 * 1.1).
Proof.
  destruct (update_rmax [frame_with Np.PInf] 0 ltac:(simpl; lia))
    as (rs & m & Hu & Hm & Hr).
  destruct (nanmax_spec _ _ Hm) as [_ Hle].
  assert (radar_rmax rs = Np.PInf) as E.
  { rewrite Hr, (le_pinf m (Hle Np.PInf (or_introl eq_refl) eq_refl)).
    apply scaled_pinf. }
  exists rs. split; [exact Hu|]. split; [|split; [exact E|rewrite E; discriminate]].
  split; [right; now left|]. intros v Hv. simpl in Hv.
  destruct Hv as [Hv|Hv]; [discriminate|].
  repeat (destruct Hv as [Hv|Hv]; [injection Hv as <-; lra|]). destruct Hv.
Qed.

(** * Further properties of the script *)

(** ** The movement loop as a scan *)

Lemma poses_from_last (p d : Pose) (l : list string) :
  last (poses_from p l) d = fold_left next_pose l p.
Proof.
  revert p. induction l as [|c l IH]; intros p; [reflexivity|].
  cbn [poses_from fold_left]. rewrite <- IH.
  destruct l; reflexivity.
Qed.

Lemma poses_from_length (p : Pose) (l : list string) :
  List.length (poses_from p l) = S (List.length l).
Proof.
  revert p. induction l as [|c l IH]; intros p; [reflexivity|].
  cbn [poses_from List.length]. now rewrite IH.
Qed.

Lemma poses_from_app (p : Pose) (l1 l2 : list string) :
  poses_from p (l1 ++ l2) =
  poses_from p l1 ++ tl (poses_from (fold_left next_pose l1 p) l2).
Proof.
  revert p. induction l1 as [|c l1 IH]; intros p.
  - destruct l2; reflexivity.
  - cbn [app poses_from fold_left]. now rewrite IH.
Qed.

Lemma trajectory_scan (labels : list string) :
  trajectory labels = poses_from origin labels.
Proof.
  induction labels as [|c l IH] using rev_ind; [reflexivity|].
  rewrite trajectory_snoc, IH, poses_from_app, poses_from_last. reflexivity.
Qed.

Lemma trajectory_last (labels : list string) :
  last (trajectory labels) origin = fold_left next_pose labels origin.
Proof. rewrite trajectory_scan. apply poses_from_last. Qed.

(** The loop that reads [positions[-1]] and [headings[-1]] and appends to
    both lists computes the left scan of the motion model from the start
    pose. *)
Theorem trajectory_is_scan (labels : list string) :
  trajectory labels = poses_from origin labels /\
  last (trajectory labels) origin = fold_left next_pose labels origin.
Proof. split; [apply trajectory_scan|apply trajectory_last]. Qed.

(** Labels that come later never change the poses computed for earlier
    ones: the trajectory of [l1 ++ l2] starts with the trajectory of [l1]
    and goes on from its last pose. *)
Theorem trajectory_prefix (l1 l2 : list string) :
  firstn (List.length l1 + 1) (trajectory (l1 ++ l2)) = trajectory l1 /\
  skipn (List.length l1) (trajectory (l1 ++ l2)) =
    poses_from (last (trajectory l1) origin) l2.
Proof.
  rewrite trajectory_last, !trajectory_scan, poses_from_app.
  assert (Hlen := poses_from_length origin l1).
  split.
  - rewrite Nat.add_1_r, <- Hlen, firstn_app, Nat.sub_diag, firstn_all.
    simpl. apply app_nil_r.
  - rewrite <- (poses_from_last origin origin l1).
    generalize (poses_from_last origin origin l1). intros Hl.
    destruct (poses_from (last (poses_from origin l1) origin) l2) as [|q qs] eqn:Ep.
    { destruct l2; discriminate. }
    assert (q = last (poses_from origin l1) origin) as ->
      by (destruct l2; cbn in Ep; now injection Ep as <-).
    cbn [tl]. clear Ep Hl.
    assert (exists init, poses_from origin l1 = init ++ [last (poses_from origin l1) origin]
                         /\ List.length init = List.length l1) as (init & Ei & Hi).
    { destruct (exists_last (l := poses_from origin l1)) as (init & z & Ez).
      - intros E. rewrite E in Hlen. discriminate.
      - exists init. rewrite Ez, last_snoc. split; [reflexivity|].
        rewrite Ez, length_app in Hlen. simpl in Hlen. lia. }
    rewrite Ei at 1. rewrite <- app_assoc, <- Hi, skipn_app, Nat.sub_diag, skipn_all.
    reflexivity.
Qed.

(** ** Labels the loop does not know *)

Lemma next_pose_unknown (p : Pose) (c : string) :
  known_label c = false -> next_pose p c = p.
Proof.
  unfold known_label, next_pose. intros H.
  apply orb_false_elim in H as [H H4]. apply orb_false_elim in H as [H H3].
  apply orb_false_elim in H as [H1 H2].
  rewrite H1, H2, H3, H4. now destruct p.
Qed.

Lemma fold_known (l : list string) (p : Pose) :
  fold_left next_pose l p = fold_left next_pose (filter known_label l) p.
Proof.
  revert p. induction l as [|c l IH]; intros p; [reflexivity|].
  cbn [fold_left filter]. destruct (known_label c) eqn:E.
  - cbn [fold_left]. apply IH.
  - rewrite (next_pose_unknown p c E). apply IH.
Qed.

(** Labels other than the four the loop tests for only repeat the current
    pose: the pose reached at the end is the one reached when these labels
    are removed from the sequence, and each such label leaves two equal
    consecutive poses in the trajectory. *)
Theorem unknown_labels_skipped (labels : list string) :
  last (trajectory labels) origin =
    last (trajectory (filter known_label labels)) origin /\
  (forall (i : nat) (c : string),
     nth_error labels i = Some c -> known_label c = false ->
     nth_error (trajectory labels) (i + 1) = nth_error (trajectory labels) i).
Proof.
  split.
  - rewrite !trajectory_last. apply fold_known.
  - intros i c Hi Hc. destruct (trajectory_step labels i c Hi) as (p & Hp & Hn).
    now rewrite Nat.add_1_r, Hn, Hp, next_pose_unknown.
Qed.

Lemma unknown_labels_skipped_witness :
  nth_error (trajectory ["Move-Forward"; "Stop"]%string) (1 + 1) =
  nth_error (trajectory ["Move-Forward"; "Stop"]%string) 1.
Proof.
  exact (proj2 (unknown_labels_skipped ["Move-Forward"; "Stop"]%string)
           1%nat "Stop"%string eq_refl eq_refl).
Defined.

(** ** Bounds on heading and position *)

Lemma heading_delta_range (c : string) :
  (-25 <= heading_delta c <= 10)%Z /\ (5 | heading_delta c)%Z.
Proof.
  unfold heading_delta.
  destruct (String.eqb c "Slight-Right-Turn");
    [split; [lia|now exists (-2)%Z]|].
  destruct (String.eqb c "Sharp-Right-Turn");
    [split; [lia|now exists (-5)%Z]|].
  destruct (String.eqb c "Slight-Left-Turn");
    [split; [lia|now exists 2%Z]|split; [lia|now exists 0%Z]].
Qed.

Lemma heading_sum_range (l : list string) :
  (-25 * Z.of_nat (List.length l) <= heading_sum l <= 10 * Z.of_nat (List.length l))%Z /\
  (5 | heading_sum l)%Z.
Proof.
  induction l as [|c l [IHr IHd]];
    [split; [unfold heading_sum; simpl; lia|now exists 0%Z]|].
  change (heading_sum (c :: l)) with (heading_delta c + heading_sum l)%Z.
  destruct (heading_delta_range c) as [Hr Hd]. split.
  - cbn [List.length]. lia.
  - now apply Z.divide_add_r.
Qed.

(** After [k] labels the heading lies between [-25 * k] and [10 * k]
    degrees and is a multiple of 5 degrees. *)
Theorem heading_range (labels : list string) (k : nat) (h : Z) :
  nth_error (snd (simulate labels)) k = Some h ->
  (-25 * Z.of_nat k <= h <= 10 * Z.of_nat k)%Z /\ (5 | h)%Z.
Proof.
  intros Hk.
  assert (k <= List.length labels)%nat as Hle.
  { assert (k < List.length (snd (simulate labels)))%nat as Hb
      by (apply nth_error_Some; congruence).
    rewrite (proj2 (simulate_length labels)) in Hb. lia. }
  rewrite (headings_sum labels k Hle) in Hk. injection Hk as <-.
  destruct (heading_sum_range (firstn k labels)) as [Hr Hd].
  rewrite length_firstn, Nat.min_l in Hr by exact Hle. now split.
Qed.

Lemma heading_range_witness :
  (-25 * Z.of_nat 2 <= -35 <= 10 * Z.of_nat 2)%Z /\ (5 | -35)%Z.
Proof.
  exact (heading_range ["Sharp-Right-Turn"; "Slight-Right-Turn"]%string 2 (-35)%Z
           eq_refl).
Defined.

Lemma distance_triangle (p q r : Pose) :
  distance p r <= distance p q + distance q r.
Proof.
  assert (H := triangle (pose_x r) (pose_y r) (pose_x p) (pose_y p)
                 (pose_x q) (pose_y q)).
  unfold dist_euc, Rsqr in H. unfold distance. lra.
Qed.

Lemma step_length_le (c : string) : step_length c <= 2.
Proof.
  unfold step_length.
  destruct (String.eqb c "Move-Forward"); [lra|].
  destruct (String.eqb c "Slight-Right-Turn"); [lra|].
  destruct (String.eqb c "Slight-Left-Turn"); lra.
Qed.

(** After [k] labels the robot is at most [2 * k] units away from where it
    started. *)
Theorem displacement_bound (labels : list string) (k : nat) (p : Pose) :
  nth_error (trajectory labels) k = Some p ->
  distance origin p <= 2 * INR k.
Proof.
  revert p. induction k as [|k IH]; intros p Hk.
  - rewrite trajectory_origin in Hk. injection Hk as <-.
    unfold origin. rewrite distance_stay. simpl. lra.
  - assert (S k < List.length (trajectory labels))%nat as Hb
      by (apply nth_error_Some; congruence).
    rewrite trajectory_length in Hb.
    destruct (nth_error labels k) as [c|] eqn:Hc;
      [|apply nth_error_None in Hc; lia].
    destruct (trajectory_step labels k c Hc) as (p' & Hp' & Hn).
    rewrite Hn in Hk. injection Hk as <-.
    assert (H1 := IH p' Hp').
    assert (H2 := distance_triangle origin p' (next_pose p' c)).
    assert (H3 := step_length_le c).
    rewrite next_pose_distance in H2. rewrite S_INR. lra.
Qed.

Lemma displacement_bound_witness :
  distance origin (next_pose origin "Slight-Left-Turn") <= 2 * INR 1.
Proof.
  exact (displacement_bound ["Slight-Left-Turn"]%string 1
           (next_pose origin "Slight-Left-Turn") eq_refl).
Defined.

Lemma fold_forward_iter (n : nat) (p : Pose) :
  fold_left next_pose (repeat "Move-Forward"%string n) p =
  mkPose (Nat.iter n (fun a => a + cos (Np.deg2rad (IZR (pose_heading p))) * 2)
            (pose_x p))
         (Nat.iter n (fun a => a + sin (Np.deg2rad (IZR (pose_heading p))) * 2)
            (pose_y p))
         (pose_heading p).
Proof.
  revert p. induction n as [|n IH]; intros [x y h]; [reflexivity|].
  cbn [repeat fold_left]. rewrite IH.
  change (next_pose (mkPose x y h) "Move-Forward")
    with (mkPose (x + cos (Np.deg2rad (IZR h)) * 2)
                 (y + sin (Np.deg2rad (IZR h)) * 2) h).
  cbn [pose_x pose_y pose_heading]. now rewrite !Nat.iter_succ_r.
Qed.

Lemma iter_add (n : nat) (d x : R) :
  Nat.iter n (fun a => a + d) x = x + INR n * d.
Proof.
  induction n as [|n IH]; [simpl; lra|].
  rewrite Nat.iter_succ, IH, S_INR. lra.
Qed.

(** A run of [n] Move-Forward labels, wherever it starts, keeps the heading
    and adds the same step, 2 times (cos, sin) of that heading, to the
    position [n] times over.  Over exact real arithmetic the sum of these
    steps is [2 * n] units along the heading; the binary64 sums of the
    script agree with that closed form only up to rounding. *)
Theorem forward_run (labels : list string) (n : nat) :
  let p := last (trajectory labels) origin in
  let dx := cos (Np.deg2rad (IZR (pose_heading p))) * 2 in
  let dy := sin (Np.deg2rad (IZR (pose_heading p))) * 2 in
  last (trajectory (labels ++ repeat "Move-Forward"%string n)) origin =
    mkPose (Nat.iter n (fun a => a + dx) (pose_x p))
           (Nat.iter n (fun a => a + dy) (pose_y p))
           (pose_heading p) /\
  Nat.iter n (fun a => a + dx) (pose_x p) =
    pose_x p + 2 * INR n * cos (IZR (pose_heading p) * PI / 180) /\
  Nat.iter n (fun a => a + dy) (pose_y p) =
    pose_y p + 2 * INR n * sin (IZR (pose_heading p) * PI / 180).
Proof.
  cbv zeta. split.
  - now rewrite !trajectory_last, fold_left_app, fold_forward_iter.
  - rewrite !iter_add.
    replace (Np.deg2rad (IZR (pose_heading (last (trajectory labels) origin))))
      with (IZR (pose_heading (last (trajectory labels) origin)) * PI / 180)
      by (unfold Np.deg2rad; lra).
    split; lra.
Qed.

(** ** What [update] draws for a frame of the table *)

Lemma update_fields (data : list SensorFrame) (frame : Z) :
  (0 <= frame < Z.of_nat (List.length data))%Z ->
  exists row p rs,
    nth_error data (Z.to_nat frame) = Some row /\
    nth_error (trajectory (map cls data)) (Z.to_nat frame) = Some p /\
    update data frame = Ok rs /\
    radar_angles rs = angles_rad ++ [Np.deg2rad (IZR 180)] /\
    radar_readings rs = US row ++ [nth 0 (US row) Np.NaN] /\
    move_class rs = cls row /\
    base_color rs = dict_get movement_colors (cls row) "gray" /\
    path rs = firstn (Z.to_nat frame + 1) (positions data) /\
    robot rs = (pose_x p, pose_y p) /\
    heading_angle rs = pose_heading p /\
    arrow rs = (cos (Np.deg2rad (IZR (pose_heading p))) * 10,
                sin (Np.deg2rad (IZR (pose_heading p))) * 10) /\
    circle rs = ((pose_x p, pose_y p), 30) /\
    title rs = ((frame + 1)%Z, (List.length data, cls row)).
Proof.
  intros Hf.
  destruct (valid_frame_row data frame Hf) as [row Hrow].
  destruct (valid_frame_pose data frame ltac:(lia)) as (p & Hp & Hxy & Hh).
  destruct (nanmax_nonempty data row _ Hrow) as (v & rest & _ & Hm).
  exists row, p. eexists.
  split; [exact Hrow|]. split; [exact Hp|].
  split; [apply (update_valid data frame row _ _ _ _ (proj1 Hf) Hrow Hxy Hh Hm)|].
  cbn [radar_angles radar_readings move_class base_color path robot
       heading_angle arrow circle title].
  replace (Z.to_nat (frame + 1)) with (Z.to_nat frame + 1)%nat by lia.
  repeat (split; [reflexivity|]). reflexivity.
Qed.

Lemma nth_error_firstn_last {A : Type} (l : list A) (k : nat) (a d : A) :
  nth_error l k = Some a -> last (firstn (k + 1) l) d = a.
Proof.
  intros H. rewrite Nat.add_1_r, (firstn_succ_snoc l k a H). apply last_snoc.
Qed.

(** The radar polygon is closed: [update] plots 25 vertices, the 24
    readings of the frame in sensor order at the 24 sensor bearings, and
    then the first reading again at the first bearing. *)
Theorem radar_loop_closed (data : list SensorFrame) (frame : Z) :
  (0 <= frame < Z.of_nat (List.length data))%Z ->
  exists rs row,
    update data frame = Ok rs /\
    nth_error data (Z.to_nat frame) = Some row /\
    List.length (radar_readings rs) = 25%nat /\
    List.length (radar_angles rs) = 25%nat /\
    firstn 24 (radar_readings rs) = US row /\
    firstn 24 (radar_angles rs) = angles_rad /\
    nth_error (radar_readings rs) 24 = nth_error (radar_readings rs) 0 /\
    nth_error (radar_angles rs) 24 = nth_error (radar_angles rs) 0.
Proof.
  intros Hf.
  destruct (update_fields data frame Hf)
    as (row & p & rs & Hrow & _ & Hu & Ha & Hr & _).
  assert (Hlen := US_len row). change (List.length sensor_cols) with 24%nat in Hlen.
  exists rs, row. split; [exact Hu|]. split; [exact Hrow|].
  rewrite Ha, Hr, !length_app, Hlen.
  split; [reflexivity|]. split; [reflexivity|].
  split; [rewrite <- Hlen; apply firstn_snoc_all|].
  split; [reflexivity|]. split; [|reflexivity].
  rewrite nth_error_app2, Hlen by lia. rewrite nth_error_app1 by lia.
  destruct (US row) as [|r0 rest]; [discriminate|reflexivity].
Qed.

Lemma radar_loop_closed_witness :
  exists rs,
    update [frame_with (Np.Fin 7)] 0 = Ok rs /\
    nth_error (radar_readings rs) 24 = nth_error (radar_readings rs) 0.
Proof.
  destruct (radar_loop_closed [frame_with (Np.Fin 7)] 0 ltac:(simpl; lia))
    as (rs & row & Hu & _ & _ & _ & _ & _ & H & _).
  exists rs. split; [exact Hu|exact H].
Defined.

(** The colour of a frame follows its movement label: green, orange, red
    and blue for the four labels of [movement_colors], gray for every other
    label; the title of the frame carries the same label. *)
Theorem frame_color (data : list SensorFrame) (frame : Z) :
  (0 <= frame < Z.of_nat (List.length data))%Z ->
  exists rs row,
    update data frame = Ok rs /\
    nth_error data (Z.to_nat frame) = Some row /\
    move_class rs = cls row /\
    snd (snd (title rs)) = cls row /\
    (cls row = "Move-Forward"%string -> base_color rs = "green"%string) /\
    (cls row = "Slight-Right-Turn"%string -> base_color rs = "orange"%string) /\
    (cls row = "Sharp-Right-Turn"%string -> base_color rs = "red"%string) /\
    (cls row = "Slight-Left-Turn"%string -> base_color rs = "blue"%string) /\
    (known_label (cls row) = false -> base_color rs = "gray"%string).
Proof.
  intros Hf.
  destruct (update_fields data frame Hf)
    as (row & p & rs & Hrow & _ & Hu & _ & _ & Hm & Hc & _ & _ & _ & _ & _ & Ht).
  exists rs, row. split; [exact Hu|]. split; [exact Hrow|].
  split; [exact Hm|]. split; [now rewrite Ht|].
  rewrite Hc. repeat split; try (intros ->; reflexivity).
  unfold known_label. intros H.
  apply orb_false_elim in H as [H H4]. apply orb_false_elim in H as [H H3].
  apply orb_false_elim in H as [H1 H2].
  cbn [dict_get movement_colors].
  rewrite (String.eqb_sym _ (cls row)), H1, (String.eqb_sym _ (cls row)), H2,
    (String.eqb_sym _ (cls row)), H3, (String.eqb_sym _ (cls row)), H4.
  reflexivity.
Qed.

Lemma frame_color_witness :
  exists rs,
    update [clear_frame] 0 = Ok rs /\ base_color rs = "green"%string.
Proof.
  destruct (frame_color [clear_frame] 0 ltac:(simpl; lia))
    as (rs & row & Hu & Hrow & _ & _ & Hg & _).
  exists rs. split; [exact Hu|]. apply Hg. now injection Hrow as <-.
Defined.

(** ** The markers of close obstacles *)

Lemma filter_seq_sorted (f : nat -> bool) (n a : nat) :
  StronglySorted lt (filter f (seq a n)).
Proof.
  revert a. induction n as [|n IH]; intros a; [constructor|].
  cbn [seq filter]. destruct (f a); [|apply IH].
  constructor; [apply IH|].
  apply Forall_forall. intros j Hj. apply filter_In in Hj as [Hj _].
  apply in_seq in Hj. lia.
Qed.

(** Each marker of a close obstacle is drawn at the bearing and the reading
    of the sensor that caused it; the markers come in increasing sensor
    order, at most one per sensor. *)
Theorem close_markers (data : list SensorFrame) (frame : Z) :
  (0 <= frame < Z.of_nat (List.length data))%Z ->
  exists rs row,
    update data frame = Ok rs /\
    nth_error data (Z.to_nat frame) = Some row /\
    (forall (i : nat) (a : R) (r : Np.float64),
       In (i, (a, r)) (close_obstacles rs) ->
       nth_error (US row) i = Some r /\
       nth_error angles_rad i = Some a /\
       Np.ltb r (Np.Fin 30) = true) /\
    StronglySorted lt (map fst (close_obstacles rs)) /\
    NoDup (map fst (close_obstacles rs)) /\
    (List.length (close_obstacles rs) <= 24)%nat.
Proof.
  intros Hf.
  destruct (update_frame data frame Hf)
    as (row & p & m & rs & Hrow & _ & _ & Hu & Hang & Hread & _ & Hclose & _).
  assert (Hlen := US_len row). change (List.length sensor_cols) with 24%nat in Hlen.
  exists rs, row. split; [exact Hu|]. split; [exact Hrow|].
  assert (map fst (close_obstacles rs) =
          filter (fun i => Np.ltb (nth i (radar_readings rs) Np.NaN)
                             (Np.Fin OBSTACLE_THRESHOLD)) (seq 0 24)) as Eidx
    by (rewrite Hclose, map_map, map_id; reflexivity).
  split; [|split; [|split]].
  - intros i a r Hin. rewrite Hclose in Hin. apply in_map_iff in Hin.
    destruct Hin as (j & Ej & Hj). apply filter_In in Hj as [Hj Hlt].
    apply in_seq in Hj. injection Ej as -> <- <-.
    rewrite Hang, Hread in *. unfold Np.append in *.
    rewrite !app_nth1 in * by (try rewrite Hlen; simpl; lia).
    split; [apply nth_error_nth'; lia|].
    split; [apply nth_error_nth'; simpl; lia|exact Hlt].
  - rewrite Eidx. apply filter_seq_sorted.
  - rewrite Eidx. apply NoDup_filter, seq_NoDup.
  - rewrite <- (length_map fst), Eidx.
    etransitivity; [apply filter_length_le|]. now rewrite length_seq.
Qed.

Lemma close_markers_witness :
  exists rs,
    update [frame_with (Np.Fin 12)] 0 = Ok rs /\
    NoDup (map fst (close_obstacles rs)).
Proof.
  destruct (close_markers [frame_with (Np.Fin 12)] 0 ltac:(simpl; lia))
    as (rs & row & Hu & _ & _ & _ & Hn & _).
  exists rs. split; [exact Hu|exact Hn].
Defined.

(** ** The path and the robot marker *)

Lemma trajectory_nth_fold (labels : list string) (k : nat) :
  (k <= List.length labels)%nat ->
  nth_error (trajectory labels) k =
    Some (fold_left next_pose (firstn k labels) origin).
Proof.
  induction k as [|k IH]; intros Hk; [apply trajectory_origin|].
  destruct (nth_error labels k) as [c|] eqn:Hc;
    [|apply nth_error_None in Hc; lia].
  destruct (trajectory_step labels k c Hc) as (p & Hp & Hn).
  rewrite IH in Hp by lia. injection Hp as <-.
  now rewrite Hn, (firstn_succ_snoc labels k c Hc), fold_left_app.
Qed.

(** The robot marker sits at the last point of the path drawn so far, and
    from one frame to the next the path keeps its points and gains exactly
    one, the new place of the marker. *)
Theorem path_grows (data : list SensorFrame) (frame : Z) :
  (0 <= frame < Z.of_nat (List.length data))%Z ->
  exists rs,
    update data frame = Ok rs /\
    robot rs = last (path rs) (0, 0) /\
    ((frame + 1 < Z.of_nat (List.length data))%Z ->
     exists rs', update data (frame + 1) = Ok rs' /\
                 path rs' = path rs ++ [robot rs']).
Proof.
  intros Hf.
  destruct (update_fields data frame Hf)
    as (row & p & rs & _ & Hp & Hu & _ & _ & _ & _ & Hpath & Hrobot & _).
  exists rs. split; [exact Hu|].
  assert (Hpos : forall k q, nth_error (trajectory (map cls data)) k = Some q ->
                             nth_error (positions data) k = Some (pose_x q, pose_y q)).
  { intros k q Hq. unfold positions.
    now rewrite <- trajectory_positions, nth_error_map, Hq. }
  split.
  - rewrite Hpath, Hrobot. symmetry. apply nth_error_firstn_last. now apply Hpos.
  - intros Hnext.
    destruct (update_fields data (frame + 1) ltac:(lia))
      as (row' & p' & rs' & _ & Hp' & Hu' & _ & _ & _ & _ & Hpath' & Hrobot' & _).
    exists rs'. split; [exact Hu'|].
    rewrite Hpath', Hpath, Hrobot'.
    replace (Z.to_nat (frame + 1) + 1)%nat with (S (Z.to_nat frame + 1)) by lia.
    apply firstn_succ_snoc.
    replace (Z.to_nat frame + 1)%nat with (Z.to_nat (frame + 1)) by lia.
    now apply Hpos.
Qed.

Lemma path_grows_witness :
  exists rs, update [clear_frame; clear_frame] 0 = Ok rs /\
             robot rs = last (path rs) (0, 0).
Proof.
  destruct (path_grows [clear_frame; clear_frame] 0 ltac:(simpl; lia))
    as (rs & Hu & Hr & _).
  exists rs. split; [exact Hu|exact Hr].
Defined.

(** The pose drawn in a frame is the pose reached by the labels of the
    frames before it: the label of the frame itself, and every later label,
    has no part in it.  Two tables whose first [frame] labels agree show
    the robot at the same place with the same heading in that frame. *)
Theorem pose_before_label (data : list SensorFrame) (frame : Z) :
  (0 <= frame < Z.of_nat (List.length data))%Z ->
  exists rs,
    update data frame = Ok rs /\
    (let p := fold_left next_pose (firstn (Z.to_nat frame) (map cls data)) origin in
     robot rs = (pose_x p, pose_y p) /\ heading_angle rs = pose_heading p) /\
    (forall data' : list SensorFrame,
       (frame < Z.of_nat (List.length data'))%Z ->
       firstn (Z.to_nat frame) (map cls data') =
         firstn (Z.to_nat frame) (map cls data) ->
       exists rs', update data' frame = Ok rs' /\
                   robot rs' = robot rs /\ heading_angle rs' = heading_angle rs).
Proof.
  intros Hf.
  assert (Hpose : forall d, (0 <= frame < Z.of_nat (List.length d))%Z ->
            exists rs, update d frame = Ok rs /\
              robot rs = (pose_x (fold_left next_pose (firstn (Z.to_nat frame) (map cls d)) origin),
                          pose_y (fold_left next_pose (firstn (Z.to_nat frame) (map cls d)) origin)) /\
              heading_angle rs =
                pose_heading (fold_left next_pose (firstn (Z.to_nat frame) (map cls d)) origin)).
  { intros d Hd.
    destruct (update_fields d frame Hd)
      as (row & p & rs & _ & Hp & Hu & _ & _ & _ & _ & _ & Hrobot & Hh & _).
    rewrite trajectory_nth_fold in Hp by (rewrite length_map; lia).
    injection Hp as <-. now exists rs. }
  destruct (Hpose data Hf) as (rs & Hu & Hr & Hh).
  exists rs. split; [exact Hu|]. split; [now split|].
  intros data' Hlen' Hsame.
  destruct (Hpose data' ltac:(lia)) as (rs' & Hu' & Hr' & Hh').
  exists rs'. split; [exact Hu'|]. now rewrite Hr', Hh', Hsame, Hr, Hh.
Qed.

Lemma pose_before_label_witness :
  exists rs, update [frame_with (Np.Fin 1); clear_frame] 1 = Ok rs /\
             heading_angle rs = 0%Z.
Proof.
  destruct (pose_before_label [frame_with (Np.Fin 1); clear_frame] 1
              ltac:(simpl; lia)) as (rs & Hu & [_ Hh] & _).
  exists rs. split; [exact Hu|exact Hh].
Defined.

(** The first frame of a table that has one shows the start: a path of the
    single point (0, 0), the robot there with heading 0, the heading arrow
    along the x axis, and the frame number 1. *)
Theorem first_frame (data : list SensorFrame) :
  data <> [] ->
  exists rs,
    update data 0 = Ok rs /\
    path rs = [(0, 0)] /\
    robot rs = (0, 0) /\
    heading_angle rs = 0%Z /\
    arrow rs = (10, 0) /\
    fst (title rs) = 1%Z.
Proof.
  intros Hne.
  assert (0 <= 0 < Z.of_nat (List.length data))%Z as Hf
    by (destruct data; [congruence|simpl; lia]).
  destruct (update_fields data 0 Hf)
    as (row & p & rs & _ & Hp & Hu & _ & _ & _ & _ & Hpath & Hrobot & Hh & Ha & _ & Ht).
  change (Z.to_nat 0) with 0%nat in *.
  rewrite trajectory_origin in Hp. injection Hp as <-.
  exists rs. split; [exact Hu|].
  split; [|split; [exact Hrobot|split; [exact Hh|split; [|now rewrite Ht]]]].
  - rewrite Hpath. unfold positions. rewrite <- trajectory_positions.
    assert (H0 := trajectory_origin (map cls data)).
    destruct (trajectory (map cls data)) as [|q qs]; [discriminate|].
    now injection H0 as ->.
  - rewrite Ha. cbn [origin pose_heading].
    rewrite deg2rad_zero, cos_0, sin_0. f_equal; lra.
Qed.

Lemma first_frame_witness :
  exists rs, update [clear_frame] 0 = Ok rs /\ path rs = [(0, 0)].
Proof.
  destruct (first_frame [clear_frame] ltac:(discriminate)) as (rs & Hu & Hp & _).
  exists rs. split; [exact Hu|exact Hp].
Defined.

(** The heading arrow is 10 units long in every frame, whatever the robot
    did to get there. *)
Theorem arrow_length (data : list SensorFrame) (frame : Z) :
  (0 <= frame < Z.of_nat (List.length data))%Z ->
  exists rs,
    update data frame = Ok rs /\
    sqrt (fst (arrow rs) * fst (arrow rs) + snd (arrow rs) * snd (arrow rs)) = 10.
Proof.
  intros Hf.
  destruct (update_fields data frame Hf)
    as (row & p & rs & _ & _ & Hu & _ & _ & _ & _ & _ & _ & _ & Ha & _).
  exists rs. split; [exact Hu|]. rewrite Ha. cbn [fst snd].
  apply sqrt_scaled_unit. lra.
Qed.

Lemma arrow_length_witness :
  exists rs,
    update [clear_frame; clear_frame] 1 = Ok rs /\
    sqrt (fst (arrow rs) * fst (arrow rs) + snd (arrow rs) * snd (arrow rs)) = 10.
Proof.
  exact (arrow_length [clear_frame; clear_frame] 1
           (conj (Z.le_0_1) (eq_refl : (1 ?= 2)%Z = Lt))).
Defined.

(** ** Whole turns of the heading *)

Lemma cos_turns (x : R) (k : Z) : cos (x + 2 * IZR k * PI) = cos x.
Proof.
  destruct (Z.le_gt_cases 0 k) as [Hk|Hk].
  - rewrite <- (Z2Nat.id k Hk), <- INR_IZR_INZ. apply cos_period.
  - rewrite <- (cos_period (x + 2 * IZR k * PI) (Z.to_nat (- k))).
    rewrite INR_IZR_INZ, Z2Nat.id by lia. rewrite opp_IZR. f_equal. lra.
Qed.

Lemma sin_turns (x : R) (k : Z) : sin (x + 2 * IZR k * PI) = sin x.
Proof.
  destruct (Z.le_gt_cases 0 k) as [Hk|Hk].
  - rewrite <- (Z2Nat.id k Hk), <- INR_IZR_INZ. apply sin_period.
  - rewrite <- (sin_period (x + 2 * IZR k * PI) (Z.to_nat (- k))).
    rewrite INR_IZR_INZ, Z2Nat.id by lia. rewrite opp_IZR. f_equal. lra.
Qed.

Lemma deg2rad_turns (h k : Z) :
  Np.deg2rad (IZR (h + 360 * k)) = Np.deg2rad (IZR h) + 2 * IZR k * PI.
Proof. unfold Np.deg2rad. rewrite plus_IZR, mult_IZR. field. Qed.

(** Over exact real arithmetic, where cos and sin have period 360 degrees
    exactly, whole turns in the heading change nothing that is drawn or
    computed from it: with heading [h + 360 * k] the motion model gives the
    same position as with [h] (and the same heading plus [360 * k], which
    is integer arithmetic and exact in the script too), finite sensor
    readings project to the same points, and the heading arrow is the
    same.  The binary64 cos and sin of the script are periodic only up to
    rounding, so there the positions, points and arrows agree only up to
    rounding. *)
Theorem heading_whole_turns (x y : R) (h k : Z) :
  (forall c : string,
     let p := next_pose (mkPose x y h) c in
     next_pose (mkPose x y (h + 360 * k)) c =
     mkPose (pose_x p) (pose_y p) (pose_heading p + 360 * k)) /\
  (forall readings : list Np.float64,
     Forall (fun r => Np.isfinite r = true) readings ->
     project x y (h + 360 * k) readings = project x y h readings) /\
  (cos (Np.deg2rad (IZR (h + 360 * k))) * 10,
   sin (Np.deg2rad (IZR (h + 360 * k))) * 10) =
  (cos (Np.deg2rad (IZR h)) * 10, sin (Np.deg2rad (IZR h)) * 10).
Proof.
  split; [|split; [|now rewrite deg2rad_turns, cos_turns, sin_turns]].
  - intros c. cbv zeta. unfold next_pose. cbn [pose_x pose_y pose_heading].
    destruct (String.eqb c "Move-Forward");
      [rewrite deg2rad_turns, cos_turns, sin_turns; reflexivity|].
    destruct (String.eqb c "Slight-Right-Turn").
    { cbv zeta. replace (h + 360 * k - 10)%Z with (h - 10 + 360 * k)%Z by lia.
      now rewrite deg2rad_turns, cos_turns, sin_turns. }
    destruct (String.eqb c "Sharp-Right-Turn").
    { cbn [pose_x pose_y pose_heading]. f_equal. lia. }
    destruct (String.eqb c "Slight-Left-Turn"); [|reflexivity].
    cbv zeta. replace (h + 360 * k + 10)%Z with (h + 10 + 360 * k)%Z by lia.
    now rewrite deg2rad_turns, cos_turns, sin_turns.
  - intros readings _. unfold project, x_local, y_local.
    rewrite (map_ext (fun a => Np.Fin (cos (a + Np.deg2rad (IZR (h + 360 * k)))))
               (fun a => Np.Fin (cos (a + Np.deg2rad (IZR h))))).
    2:{ intros a. rewrite deg2rad_turns, <- Rplus_assoc. now rewrite cos_turns. }
    rewrite (map_ext (fun a => Np.Fin (sin (a + Np.deg2rad (IZR (h + 360 * k)))))
               (fun a => Np.Fin (sin (a + Np.deg2rad (IZR h))))).
    2:{ intros a. rewrite deg2rad_turns, <- Rplus_assoc. now rewrite sin_turns. }
    reflexivity.
Qed.

(** ** The two views agree *)

Lemma gap_polar (x y v t : R) :
  gap (x, y) (v * cos t + x, v * sin t + y) = Rabs v.
Proof.
  unfold gap. cbn [fst snd]. rewrite <- sqrt_Rsqr_abs. f_equal.
  assert (H := sin2_cos2 t). unfold Rsqr in *.
  replace ((v * cos t + x - x) * (v * cos t + x - x) +
           (v * sin t + y - y) * (v * sin t + y - y))
    with (v * v * (sin t * sin t + cos t * cos t)) by ring.
  rewrite H. ring.
Qed.

(** The detection circle is centred on the robot with the obstacle
    threshold as radius.  Over exact real arithmetic the point projected
    for a sensor with a finite reading lies at the distance of that reading
    from the robot, so for a reading that is not negative the sensor is
    marked in the radar view exactly when its point on the map lies
    strictly inside the circle.  The binary64 points of the script lie at
    that distance only up to rounding, so there the two tests can disagree
    for a reading within rounding distance of the threshold. *)
Theorem marked_iff_inside_circle (data : list SensorFrame) (frame : Z)
  (row : SensorFrame) (i : nat) (v : R) :
  (0 <= frame < Z.of_nat (List.length data))%Z ->
  nth_error data (Z.to_nat frame) = Some row ->
  nth_error (US row) i = Some (Np.Fin v) ->
  exists rs px py,
    update data frame = Ok rs /\
    nth_error (obstacle_x rs) i = Some (Np.Fin px) /\
    nth_error (obstacle_y rs) i = Some (Np.Fin py) /\
    fst (circle rs) = robot rs /\
    snd (circle rs) = OBSTACLE_THRESHOLD /\
    gap (robot rs) (px, py) = Rabs v /\
    (0 <= v ->
     (In i (map fst (close_obstacles rs)) <->
      gap (fst (circle rs)) (px, py) < snd (circle rs))).
Proof.
  intros Hf Hrow Hv.
  assert (i < 24)%nat as Hi.
  { assert (i < List.length (US row))%nat as H by (apply nth_error_Some; congruence).
    now rewrite (US_len row) in H. }
  assert (exists b, nth_error angles_deg i = Some b) as [b Hb].
  { destruct (nth_error angles_deg i) eqn:E; [eauto|].
    apply nth_error_None in E. simpl in E. lia. }
  destruct (update_frame data frame Hf)
    as (row' & p & m & rs & Hrow' & Hp & _ & Hu & _ & _ & _ & _ & _ & Hrobot & _ & _ & Hproj).
  rewrite Hrow in Hrow'. injection Hrow' as <-.
  destruct (update_fields data frame Hf)
    as (row1 & p1 & rs1 & _ & Hp1 & Hu1 & _ & _ & _ & _ & _ & Hrobot1 & _ & _ & Hcircle & _).
  rewrite Hu in Hu1. injection Hu1 as <-.
  rewrite Hp in Hp1. injection Hp1 as <-.
  destruct (close_indices data frame Hf) as (rs2 & row2 & Hu2 & Hrow2 & Hclose).
  rewrite Hu in Hu2. injection Hu2 as <-.
  rewrite Hrow in Hrow2. injection Hrow2 as <-.
  destruct (project_nth (pose_x p) (pose_y p) (pose_heading p) (US row) i
              (Np.Fin v) b (US_len row) Hv Hb) as (pts & Hpts & Hn).
  rewrite Hproj in Hpts. injection Hpts as <-.
  cbn [Np.mul Np.add] in Hn.
  destruct (nth_error_combine_inv _ _ _ _ _ Hn) as [Hx Hy].
  eexists rs, _, _. split; [exact Hu|]. split; [exact Hx|]. split; [exact Hy|].
  rewrite Hcircle, Hrobot. cbn [fst snd].
  split; [congruence|]. split; [reflexivity|].
  rewrite gap_polar. split; [reflexivity|].
  intros Hpos. rewrite Rabs_pos_eq by exact Hpos. rewrite Hclose.
  unfold OBSTACLE_THRESHOLD. split.
  - intros [_ (r & Hr & Hlt)]. rewrite Hv in Hr. injection Hr as <-.
    simpl in Hlt. destruct (Rlt_dec v 30); [assumption|discriminate].
  - intros Hlt. split; [exact Hi|]. exists (Np.Fin v). split; [exact Hv|].
    simpl. destruct (Rlt_dec v 30); [reflexivity|contradiction].
Qed.

Lemma marked_iff_inside_circle_witness :
  exists rs px py,
    update [frame_with (Np.Fin 12)] 0 = Ok rs /\
    nth_error (obstacle_x rs) 0 = Some (Np.Fin px) /\
    nth_error (obstacle_y rs) 0 = Some (Np.Fin py) /\
    gap (robot rs) (px, py) = Rabs 12.
Proof.
  destruct (marked_iff_inside_circle [frame_with (Np.Fin 12)] 0
              (frame_with (Np.Fin 12)) 0 12 ltac:(simpl; lia) eq_refl eq_refl)
    as (rs & px & py & Hu & Hx & Hy & _ & _ & Hg & _).
  exists rs, px, py. split; [exact Hu|]. split; [exact Hx|]. split; [exact Hy|exact Hg].
Defined.

(** ** The frames the driver asks for *)

Lemma in_frames (data : list SensorFrame) (frame : Z) :
  In frame (frames data) <-> (0 <= frame < Z.of_nat (List.length data))%Z.
Proof.
  unfold frames. rewrite in_map_iff. split.
  - intros (k & <- & Hk). apply in_seq in Hk. lia.
  - intros H. exists (Z.to_nat frame). split; [lia|]. apply in_seq. lia.
Qed.

(** The frame sequence of the animation driver holds exactly the indices
    [update] accepts: every call with an index of the sequence returns a
    state, and no other index would.  The sequence has one index per row
    of the table, none twice, and the frame at position [k] (from 0) is
    titled "Frame k+1/N". *)
Theorem driver_frames (data : list SensorFrame) :
  (forall frame : Z,
     In frame (frames data) <-> exists rs, update data frame = Ok rs) /\
  List.length (frames data) = List.length data /\
  NoDup (frames data) /\
  (forall (k : nat) (frame : Z),
     nth_error (frames data) k = Some frame ->
     exists rs, update data frame = Ok rs /\
                fst (title rs) = (Z.of_nat k + 1)%Z /\
                fst (snd (title rs)) = List.length data).
Proof.
  split; [|split; [|split]].
  - intros frame. rewrite in_frames. split.
    + intros Hf. destruct (update_fields data frame Hf) as (row & p & rs & _ & _ & Hu & _).
      now exists rs.
    + intros [rs Hu].
      destruct (Z.lt_ge_cases frame 0) as [Hneg|Hpos];
        [|destruct (Z.lt_ge_cases frame (Z.of_nat (List.length data))) as [Hlt|Hge];
          [lia|]].
      * unfold update in Hu. rewrite loc_out_of_range in Hu by (now left). discriminate.
      * unfold update in Hu. rewrite loc_out_of_range in Hu by (now right). discriminate.
  - unfold frames. now rewrite length_map, length_seq.
  - unfold frames. apply Finite.Injective_map_NoDup; [|apply seq_NoDup].
    intros a b. apply Nat2Z.inj.
  - intros k frame Hk. unfold frames in Hk. rewrite nth_error_map in Hk.
    destruct (nth_error (seq 0 (List.length data)) k) as [j|] eqn:Ej; [|discriminate].
    injection Hk as <-.
    assert (k < List.length data)%nat as Hlt.
    { assert (k < List.length (seq 0 (List.length data)))%nat as H
        by (apply nth_error_Some; congruence).
      now rewrite length_seq in H. }
    rewrite nth_error_seq in Ej.
    destruct (Nat.ltb_spec k (List.length data)) as [_|Hge]; [|lia].
    injection Ej as <-.
    destruct (update_fields data (Z.of_nat (0 + k)) ltac:(lia))
      as (row & p & rs & _ & _ & Hu & _ & _ & _ & _ & _ & _ & _ & _ & _ & Ht).
    exists rs. split; [exact Hu|]. rewrite Ht. cbn [fst snd]. split; [lia|reflexivity].
Qed.

(** ** Readings against the radial scale *)

(** When no reading is positive infinity and the largest finite reading
    [M] of the dataset is not negative, no finite reading of any frame lies
    above the upper bound of the radial axis.  When [M] is zero or negative,
    [M] itself is not below the bound.  Both rest only on the fact that the
    factor 1.1 does not lower a number that is not negative and does not
    raise one that is not positive, which rounding to nearest keeps. *)
Theorem readings_within_scale (data : list SensorFrame) (frame : Z) (M : R) :
  (0 <= frame < Z.of_nat (List.length data))%Z ->
  max_finite_reading data M ->
  ~ In Np.PInf (List.concat (map US data)) ->
  exists rs,
    update data frame = Ok rs /\
    (0 <= M ->
     forall v, In (Np.Fin v) (List.concat (map US data)) ->
               Np.ltb (radar_rmax rs) (Np.Fin v) = false) /\
    (M <= 0 -> Np.ltb (Np.Fin M) (radar_rmax rs) = false).
Proof.
  intros Hf [HM Hmax] Hinf.
  destruct (update_rmax data frame Hf) as (rs & m & Hu & Hm & Hr).
  destruct (nanmax_spec _ _ Hm) as [Hin Hle].
  assert (m = Np.Fin M) as ->.
  { destruct (Hle _ HM eq_refl) as (_ & Hnan & Hlt).
    destruct m as [v| | |]; simpl in *; try discriminate; [|contradiction].
    specialize (Hmax v Hin). destruct (Rlt_dec v M); [discriminate|].
    f_equal. lra. }
  exists rs. split; [exact Hu|]. rewrite Hr. cbn [Np.mul]. split.
  - intros Hpos v Hv. specialize (Hmax v Hv). simpl.
    destruct (Rlt_dec (M * 1.1) v); [lra|reflexivity].
  - intros Hneg. simpl. destruct (Rlt_dec M (M * 1.1)); [lra|reflexivity].
Qed.

Lemma readings_within_scale_witness :
  exists rs,
    update [clear_frame] 0 = Ok rs /\
    Np.ltb (radar_rmax rs) (Np.Fin 100) = false.
Proof.
  destruct (readings_within_scale [clear_frame] 0 100 ltac:(simpl; lia))
    as (rs & Hu & Hpos & _).
  - split; [now left|]. intros v Hv. simpl in Hv.
    repeat (destruct Hv as [Hv|Hv]; [injection Hv as <-; lra|]). destruct Hv.
  - intros Hv. simpl in Hv.
    repeat (destruct Hv as [Hv|Hv]; [discriminate|]). destruct Hv.
  - exists rs. split; [exact Hu|]. apply Hpos; [lra|now left].
Defined.

(** ** A frame without readings *)

(** A frame whose 24 readings are all not-a-number is still drawn: no
    sensor is marked and every projected point is not-a-number.  If every
    reading of the dataset is not-a-number, the upper bound of the radial
    axis is not-a-number as well. *)
Theorem blank_frame (data : list SensorFrame) (frame : Z) (row : SensorFrame) :
  (0 <= frame < Z.of_nat (List.length data))%Z ->
  nth_error data (Z.to_nat frame) = Some row ->
  Forall (eq Np.NaN) (US row) ->
  exists rs,
    update data frame = Ok rs /\
    close_obstacles rs = [] /\
    obstacle_x rs = repeat Np.NaN 24 /\
    obstacle_y rs = repeat Np.NaN 24 /\
    (Forall (eq Np.NaN) (List.concat (map US data)) -> radar_rmax rs = Np.NaN).
Proof.
  intros Hf Hrow Hall.
  destruct (valid_frame_pose data frame ltac:(lia)) as (p & Hp & Hxy & Hh).
  destruct (nanmax_nonempty data row _ Hrow) as (v & rest & _ & Hm).
  assert (Hu := update_valid data frame row _ _ _ _ (proj1 Hf) Hrow Hxy Hh Hm).
  cbv zeta in Hu.
  assert (US row = repeat Np.NaN 24) as E.
  { rewrite (Forall_eq_repeat Hall). now rewrite (US_len row). }
  eexists. split; [exact Hu|].
  cbn [close_obstacles obstacle_x obstacle_y radar_rmax].
  rewrite E. split; [reflexivity|]. split; [reflexivity|]. split; [reflexivity|].
  intros Hdata. destruct (nanmax_spec _ _ Hm) as [Hin _].
  rewrite Forall_forall in Hdata. now rewrite <- (Hdata _ Hin).
Qed.

Lemma blank_frame_witness :
  exists rs,
    update [{| US := repeat Np.NaN 24; cls := "Move-Forward"; US_len := eq_refl |}] 0
      = Ok rs /\
    close_obstacles rs = [] /\ radar_rmax rs = Np.NaN.
Proof.
  destruct (blank_frame
              [{| US := repeat Np.NaN 24; cls := "Move-Forward"; US_len := eq_refl |}]
              0 {| US := repeat Np.NaN 24; cls := "Move-Forward"; US_len := eq_refl |}
              ltac:(simpl; lia) eq_refl)
    as (rs & Hu & Hc & _ & _ & Hr).
  - simpl. repeat constructor.
  - exists rs. split; [exact Hu|]. split; [exact Hc|].
    apply Hr. simpl. repeat constructor.
Defined.
